(** * Contiguous frame pool and virtual-memory pool

    A shallow embedding of [cont_frame_pool.C] and [vm_pool.C] and the
    properties of their allocation and release operations.

    Conventions of the embedding.
    - The kernel is a 32-bit x86 kernel: [unsigned long] and [unsigned int]
      are 32-bit words, modelled as [Z] with the wrap-around [ulong] written
      where the code computes; [unsigned char] is [uchar].
    - A pool's bitmap is a raw pointer into physical memory.  It is modelled
      as the memory seen through that pointer: a total map from byte index to
      cell content.  Nothing bounds the index, as nothing does in the code.
    - [assert] halts the kernel: operations that can assert return a
      [result], whose [Fatal] is the halt.
    - Console output is not modelled, except that the two refusals of
      [release_frames] are told apart by the message they print. *)

From Stdlib Require Import ZArith List Bool Lia Sorted.
Import ListNotations.
Local Open Scope Z_scope.

(** ** Machine integers *)

Definition ulong (x : Z) : Z := x mod 2 ^ 32.
Definition uchar (x : Z) : Z := x mod 256.

(** The outcome of an operation that may hit an [assert]. *)
Inductive result (A : Type) : Type :=
| Fatal : result A
| Ret : A -> result A.
Arguments Fatal {A}.
Arguments Ret {A} _.

(** ** Memory seen through a byte pointer *)

Definition memory := Z -> Z.

Definition load_byte (m : memory) (i : Z) : Z := uchar (m i).

Definition store_byte (m : memory) (i v : Z) : memory :=
  fun j => if j =? i then uchar v else m j.

(** ** Frame states, two bits per frame *)

Inductive FrameState : Type := Free | Used | HoS.

Definition FrameState_eqb (a b : FrameState) : bool :=
  match a, b with
  | Free, Free | Used, Used | HoS, HoS => true
  | _, _ => false
  end.

(** [mask = 0x1 << position | 0x1 << (position+1)], an [unsigned char]. *)
Definition frame_mask (position : Z) : Z :=
  uchar (Z.lor (Z.shiftl 1 position) (Z.shiftl 1 (position + 1))).

(** The decision of [get_state] on the byte it has read. *)
Definition read_bits (byte position : Z) : FrameState :=
  let mask := frame_mask position in
  let result := Z.land byte mask in
  if result =? 0 then Free
  else if result =? mask then Used
  else HoS.

(** The read-modify-write of [set_state] on the byte it has read.  Every
    assignment to [bitmap[bitmap_index]] truncates to [unsigned char]; the
    [HoS] case assigns twice. *)
Definition write_bits (byte position : Z) (_state : FrameState) : Z :=
  let mask := frame_mask position in
  match _state with
  | Used => uchar (Z.lor byte mask)
  | Free => uchar (Z.land byte (Z.lnot mask))
  | HoS =>
      let byte1 := uchar (Z.land byte (Z.lnot mask)) in
      let mask1 := uchar (Z.shiftl 1 (position + 1)) in
      uchar (Z.lor byte1 mask1)
  end.

(** [bitmap_index] is an [unsigned int] holding [_frame_no / 4]: the quotient
    of a 32-bit word fits, so the conversion changes nothing. *)
Definition get_state (bitmap : memory) (_frame_no : Z) : FrameState :=
  let bitmap_index := _frame_no / 4 in
  let position := 2 * (_frame_no mod 4) in
  read_bits (load_byte bitmap bitmap_index) position.

Definition set_state (bitmap : memory) (_frame_no : Z) (_state : FrameState)
  : memory :=
  let bitmap_index := _frame_no / 4 in
  let position := 2 * (_frame_no mod 4) in
  store_byte bitmap bitmap_index
        (write_bits (load_byte bitmap bitmap_index) position _state).

(** ** The pool object *)

Record ContFramePool : Type := mkPool {
  base_frame_no : Z;
  n_frames : Z;
  n_free_frames : Z;
  info_frame_no : Z;
  bitmap : memory
}.

(** The fields are [unsigned long] values. *)
Definition pool_in_range (p : ContFramePool) : Prop :=
  0 <= base_frame_no p < 2 ^ 32 /\
  0 <= n_frames p < 2 ^ 32 /\
  0 <= n_free_frames p < 2 ^ 32.

(** [set_state(i, st); n_free_frames--;] *)
Definition take_frame (p : ContFramePool) (i : Z) (st : FrameState)
  : ContFramePool :=
  mkPool (base_frame_no p) (n_frames p) (ulong (n_free_frames p - 1))
         (info_frame_no p) (set_state (bitmap p) i st).

(** [set_state(i, Free); n_free_frames++;] *)
Definition give_frame (p : ContFramePool) (i : Z) : ContFramePool :=
  mkPool (base_frame_no p) (n_frames p) (ulong (n_free_frames p + 1))
         (info_frame_no p) (set_state (bitmap p) i Free).

(** [for (i = lo; i < hi; i++) { set_state(i, Used); n_free_frames--; }]
    with [k] the number of iterations. *)
Fixpoint mark_used (k : nat) (i : Z) (p : ContFramePool) : ContFramePool :=
  match k with
  | O => p
  | S k' => mark_used k' (ulong (i + 1)) (take_frame p i Used)
  end.

(** The search loop of [get_frames]: [k] iterations are left before [i]
    reaches [n_frames]; the answer is the index [i] at the [break]. *)
Fixpoint scan (k : nat) (bm : memory) (_n_frames : Z) (i count : Z)
  : option Z :=
  match k with
  | O => None
  | S k' =>
      let count' :=
        if FrameState_eqb (get_state bm i) Free then ulong (count + 1) else 0 in
      if count' =? _n_frames then Some i
      else scan k' bm _n_frames (ulong (i + 1)) count'
  end.

Definition get_frames (p : ContFramePool) (_n_frames : Z)
  : result (ContFramePool * Z) :=
  if negb (0 <? n_free_frames p) then Fatal
  else
    match scan (Z.to_nat (n_frames p)) (bitmap p) _n_frames 0 0 with
    | None => Ret (p, 0)
    | Some i =>
        let start_frame := ulong (ulong (i - _n_frames) + 1) in
        let p1 := take_frame p start_frame HoS in
        let lo := ulong (start_frame + 1) in
        let hi := ulong (start_frame + _n_frames) in
        let p2 := mark_used (Z.to_nat (hi - lo)) lo p1 in
        Ret (p2, ulong (start_frame + base_frame_no p))
    end.

Definition mark_inaccessible (p : ContFramePool) (_base_frame_no _n_frames : Z)
  : ContFramePool :=
  let p1 := take_frame p _base_frame_no HoS in
  let lo := ulong (_base_frame_no + 1) in
  let hi := ulong (_base_frame_no + _n_frames) in
  mark_used (Z.to_nat (hi - lo)) lo p1.

(** [release_frames]: the sweep after the head,
    [while (get_state(f - base) == Used) { set_state(f - base, Free);
    n_free_frames++; f++; }].  The loop has no bound of its own; [fuel] is the
    number of iterations the model may run and [None] says it ran out. *)
Fixpoint release_sweep (fuel : nat) (p : ContFramePool) (_first_frame_no : Z)
  : option ContFramePool :=
  match fuel with
  | O => None
  | S fuel' =>
      let i := ulong (_first_frame_no - base_frame_no p) in
      if FrameState_eqb (get_state (bitmap p) i) Used
      then release_sweep fuel' (give_frame p i) (ulong (_first_frame_no + 1))
      else Some p
  end.

(** ** The pool registry

    [list_head], [next_pool], [last_node]: the pools in the order of their
    construction.  A pool object is its position in the list: where the code
    changes a pool in place, the list holds the pool as changed.

    Each pool of the list carries in [bitmap] its own view of the memory
    behind its bitmap pointer.  In the code the bitmaps are pointers into
    one physical memory, so a write through one pool's bitmap that lands in
    the bytes of another pool's bitmap (two pools on one info frame, a
    bitmap longer than its frame, the sweep of [release_frames] past the
    pool's last entry) is seen by that other pool.  The list does not show
    such a write: of a list of several pools it gives the fields of every
    pool, the order of the pools, and the bitmap of the one pool that a call
    works on as that call reads and writes it. *)
Definition registry := list ContFramePool.

(** The test of the lookup loop of [release_frames]. *)
Definition in_pool_range (p : ContFramePool) (f : Z) : bool :=
  (base_frame_no p <=? f) && (f <? ulong (base_frame_no p + n_frames p)).

Fixpoint find_pool (reg : registry) (f : Z) : option (nat * ContFramePool) :=
  match reg with
  | [] => None
  | p :: rest =>
      if in_pool_range p f then Some (O, p)
      else match find_pool rest f with
           | Some (k, q) => Some (S k, q)
           | None => None
           end
  end.

Fixpoint update_pool (reg : registry) (k : nat) (q : ContFramePool)
  : registry :=
  match reg, k with
  | [], _ => []
  | _ :: rest, O => q :: rest
  | p :: rest, S k' => p :: update_pool rest k' q
  end.

(** What [release_frames] did: the two refusals print
    [Pool not found] and [First frame is not a head frame].  An accepted
    call writes through the bitmap of the pool it found, and the list it
    returns holds that pool as changed. *)
Inductive ReleaseOutcome : Type :=
| PoolNotFound
| NotHeadFrame
| Released.

Definition release_frames (fuel : nat) (reg : registry) (_first_frame_no : Z)
  : option (registry * ReleaseOutcome) :=
  match find_pool reg _first_frame_no with
  | None => Some (reg, PoolNotFound)
  | Some (k, curr_pool) =>
      let i := ulong (_first_frame_no - base_frame_no curr_pool) in
      if negb (FrameState_eqb (get_state (bitmap curr_pool) i) HoS)
      then Some (reg, NotHeadFrame)
      else
        match release_sweep fuel (give_frame curr_pool i)
                            (ulong (_first_frame_no + 1)) with
        | None => None
        | Some q => Some (update_pool reg k q, Released)
        end
  end.

(** ** Construction *)

Section Construction.

(** [ContFramePool::FRAME_SIZE] is declared in [cont_frame_pool.H]. *)
Variable FRAME_SIZE : Z.

(** [for (fno = 0; fno < n_frames; fno++) set_state(fno, Free);] *)
Fixpoint init_free (k : nat) (fno : Z) (bm : memory) : memory :=
  match k with
  | O => bm
  | S k' => init_free k' (ulong (fno + 1)) (set_state bm fno Free)
  end.

(** The constructor.  [phys] is physical memory, byte addressed, as it is
    when the constructor runs; the bitmap is the memory from the chosen
    frame's first byte on.  The new pool goes to the tail of the registry.
    The pools before it are listed as they were: what the initialisation
    writes into bytes that an earlier pool's bitmap also has is not carried
    over to that pool's view. *)
Definition construct (phys : memory) (reg : registry)
           (_base_frame_no _n_frames _info_frame_no : Z)
  : result (ContFramePool * registry) :=
  if negb (_n_frames <=? ulong (FRAME_SIZE * 8)) then Fatal
  else
    let bitmap_ptr :=
      if _info_frame_no =? 0 then ulong (_base_frame_no * FRAME_SIZE)
      else ulong (_info_frame_no * FRAME_SIZE) in
    let bm0 : memory := fun i => phys (bitmap_ptr + i) in
    let bm1 := init_free (Z.to_nat _n_frames) 0 bm0 in
    let p1 := mkPool _base_frame_no _n_frames _n_frames _info_frame_no bm1 in
    let p2 := if _info_frame_no =? 0 then take_frame p1 0 Used else p1 in
    Ret (p2, reg ++ [p2]).

Definition needed_info_frames (_n_frames : Z) : Z :=
  let max_bits_in_frame := ulong (8 * FRAME_SIZE) / 2 in
  ulong (_n_frames / max_bits_in_frame
         + (if 0 <? _n_frames mod max_bits_in_frame then 1 else 0)).

End Construction.

(** ** What the properties of the frame pool speak of *)

(** The frames [s, s+n) of the bitmap are all [Free]. *)
Definition run_free (bm : memory) (s n : Z) : Prop :=
  forall j, s <= j < s + n -> get_state bm j = Free.

(** A run of [n] free frames lies in the pool. *)
Definition has_free_run (p : ContFramePool) (n : Z) : Prop :=
  exists s, 0 <= s /\ s + n <= n_frames p /\ run_free (bitmap p) s n.

(** The indices [0 .. n-1]. *)
Definition indices (n : Z) : list Z := map Z.of_nat (seq 0 (Z.to_nat n)).

(** The number of [Free] entries of a bitmap among the indices [0 .. n-1]. *)
Definition count_free_in (bm : memory) (n : Z) : Z :=
  Z.of_nat (length (filter (fun i => FrameState_eqb (get_state bm i) Free)
                           (indices n))).

(** The number of [Free] frames of a pool. *)
Definition count_free (p : ContFramePool) : Z :=
  count_free_in (bitmap p) (n_frames p).

(** 1 for [Free], 0 for the other states. *)
Definition free_bit (st : FrameState) : Z :=
  if FrameState_eqb st Free then 1 else 0.

(** The invariant of the free count. *)
Definition free_count_ok (p : ContFramePool) : Prop :=
  n_free_frames p = count_free p.

(** ** The virtual-memory pool *)

(** One entry of the region table, [struct allocated_vm_region].  Its
    fields [_base_address] and [_size] have the names of the pool's own
    fields and carry the prefix [region] here. *)
Record allocated_vm_region : Type := mkRegion {
  region_base_address : Z;
  region_size : Z
}.

(** The region table is an array at a raw address: a total map from slot to
    entry, the slots from [region_iterator] on holding whatever is there. *)
Definition region_table := Z -> allocated_vm_region.

Definition put_region (tbl : region_table) (i : Z) (r : allocated_vm_region)
  : region_table :=
  fun j => if j =? i then r else tbl j.

(** The pool object.  The pointers [_frame_pool] and [_page_table] are left
    out: the first is never used, the calls on the second are the events
    below. *)
Record VMPool : Type := mkVMPool {
  _base_address : Z;
  _size : Z;
  region_iterator : Z;
  allocated_region : region_table
}.

(** The calls [release] makes on the page table. *)
Inductive pt_call : Type :=
| free_page (address : Z)
| load.

Section VMPoolModel.

(** [Machine::PAGE_SIZE] is declared in [machine.H] and [MAX_VM_REGIONS]
    in [vm_pool.H]. *)
Variable PAGE_SIZE : Z.
Variable MAX_VM_REGIONS : Z.

Definition allocate (p : VMPool) (size : Z) : result (VMPool * Z) :=
  if size =? 0 then Fatal
  else if region_iterator p =? MAX_VM_REGIONS then Fatal
  else
    let n_pages_needed := ulong (size / PAGE_SIZE) in
    let n_pages_needed :=
      if 0 <? size mod PAGE_SIZE then ulong (n_pages_needed + 1)
      else n_pages_needed in
    let final_mem_size := ulong (n_pages_needed * PAGE_SIZE) in
    let it := region_iterator p in
    let base :=
      if it =? 0 then _base_address p
      else
        let prev := allocated_region p (ulong (it - 1)) in
        ulong (region_base_address prev + region_size prev) in
    let tbl := put_region (allocated_region p) it
                          (mkRegion base final_mem_size) in
    let it' := ulong (it + 1) in
    Ret (mkVMPool (_base_address p) (_size p) it' tbl,
         region_base_address (tbl (ulong (it' - 1)))).

(** [for (; indx < region_iterator; indx++) if (... == _start_address)
    break;] with [k] iterations left. *)
Fixpoint find_region (k : nat) (tbl : region_table) (_start_address : Z)
         (indx : Z) : Z :=
  match k with
  | O => indx
  | S k' =>
      if region_base_address (tbl indx) =? _start_address then indx
      else find_region k' tbl _start_address (ulong (indx + 1))
  end.

(** [for (i = 0; i < n_pages_allocated; i++) free_page(base + i * PAGE_SIZE);]
    with [k] iterations left. *)
Fixpoint free_pages (k : nat) (i : Z) (d : allocated_vm_region)
  : list pt_call :=
  match k with
  | O => []
  | S k' =>
      free_page (ulong (region_base_address d + ulong (i * PAGE_SIZE)))
      :: free_pages k' (ulong (i + 1)) d
  end.

(** [for (; indx < region_iterator; indx++)
    allocated_region[indx] = allocated_region[indx + 1];]
    with [k] iterations left. *)
Fixpoint shift_down (k : nat) (indx : Z) (tbl : region_table)
  : region_table :=
  match k with
  | O => tbl
  | S k' =>
      shift_down k' (ulong (indx + 1))
                 (put_region tbl indx (tbl (ulong (indx + 1))))
  end.

Definition release (p : VMPool) (_start_address : Z)
  : VMPool * list pt_call :=
  let tbl := allocated_region p in
  let it := region_iterator p in
  let indx := find_region (Z.to_nat it) tbl _start_address 0 in
  let n_pages_allocated := ulong (region_size (tbl indx) / PAGE_SIZE) in
  let calls := free_pages (Z.to_nat n_pages_allocated) 0 (tbl indx) in
  let tbl' := shift_down (Z.to_nat (it - indx)) indx tbl in
  (mkVMPool (_base_address p) (_size p) (ulong (it - 1)) tbl',
   calls ++ [load]).

Definition is_legitimate (p : VMPool) (_address : Z) : bool :=
  let last_address := ulong (_base_address p + _size p) in
  (_base_address p <=? _address) && (_address <=? last_address).

(** Successive calls of [allocate], nothing between them: the addresses
    returned, in the order of the calls. *)
Fixpoint allocate_all (p : VMPool) (sizes : list Z)
  : result (VMPool * list Z) :=
  match sizes with
  | [] => Ret (p, [])
  | size :: rest =>
      match allocate p size with
      | Fatal => Fatal
      | Ret (p1, a) =>
          match allocate_all p1 rest with
          | Fatal => Fatal
          | Ret (p2, l) => Ret (p2, a :: l)
          end
      end
  end.

End VMPoolModel.

(** ** What the properties of the virtual-memory pool speak of *)

(** The fields of a pool and of its live table entries are 32-bit words. *)
Definition region_in_range (r : allocated_vm_region) : Prop :=
  0 <= region_base_address r < 2 ^ 32 /\ 0 <= region_size r < 2 ^ 32.

Definition vm_in_range (p : VMPool) : Prop :=
  0 <= _base_address p < 2 ^ 32 /\
  0 <= _size p < 2 ^ 32 /\
  0 <= region_iterator p < 2 ^ 32 /\
  forall j, 0 <= j < region_iterator p ->
            region_in_range (allocated_region p j).

(** [size] rounded up to a whole number of pages of [PAGE_SIZE] bytes. *)
Definition round_up_pages (PAGE_SIZE size : Z) : Z :=
  (size + PAGE_SIZE - 1) / PAGE_SIZE * PAGE_SIZE.

(** Where the next region starts: at the pool's base address when the table
    is empty, behind the last region otherwise. *)
Definition next_region_base (p : VMPool) : Z :=
  if region_iterator p =? 0 then _base_address p
  else
    let prev := allocated_region p (region_iterator p - 1) in
    region_base_address prev + region_size prev.

(** Regions packed one behind the other from address [a] on, one for each
    requested size. *)
Fixpoint packed_regions (PAGE_SIZE a : Z) (sizes : list Z)
  : list allocated_vm_region :=
  match sizes with
  | [] => []
  | size :: rest =>
      mkRegion a (round_up_pages PAGE_SIZE size)
      :: packed_regions PAGE_SIZE (a + round_up_pages PAGE_SIZE size) rest
  end.

Definition total_rounded (PAGE_SIZE : Z) (sizes : list Z) : Z :=
  fold_right (fun size acc => round_up_pages PAGE_SIZE size + acc) 0 sizes.

(** The [n] table entries from slot [from] on. *)
Definition recorded (p : VMPool) (from : Z) (n : nat)
  : list allocated_vm_region :=
  map (fun i => allocated_region p (from + Z.of_nat i)) (seq 0 n).

(** Region [r1] ends where region [r2] starts or before. *)
Definition region_before (r1 r2 : allocated_vm_region) : Prop :=
  region_base_address r1 + region_size r1 <= region_base_address r2.

(** ** The two-bit fields of one byte, on all bytes

    The bit-level facts about [read_bits] and [write_bits] are decided by
    running them on the 256 bytes, the four positions and the three states. *)

Definition all_bytes : list Z := map Z.of_nat (seq 0 256).
Definition all_positions : list Z := [0; 2; 4; 6].
Definition all_states : list FrameState := [Free; Used; HoS].

Definition check_same : bool :=
  forallb (fun b => forallb (fun pos => forallb (fun st =>
    FrameState_eqb (read_bits (write_bits b pos st) pos) st)
    all_states) all_positions) all_bytes.

Definition check_other : bool :=
  forallb (fun b => forallb (fun pos => forallb (fun pos' => forallb (fun st =>
    (pos =? pos') ||
    FrameState_eqb (read_bits (write_bits b pos st) pos') (read_bits b pos'))
    all_states) all_positions) all_positions) all_bytes.

(** ** Concrete pools

    The pools on which the theorems below are run.  [FRAME_SIZE] is 4096
    there, the page size of the machine. *)

Definition pool_of (r : result (ContFramePool * registry)) : ContFramePool :=
  match r with
  | Ret (p, _) => p
  | Fatal => mkPool 0 0 0 0 (fun _ => 0)
  end.

Definition zero_memory : memory := fun _ => 0.

(** Eight frames from frame 16 on, the bitmap in the pool's first frame. *)
Definition pool8 : ContFramePool :=
  pool_of (construct 4096 zero_memory [] 16 8 0).

(** [pool8] after [get_frames(3)]. *)
Definition pool8_taken : ContFramePool :=
  match get_frames pool8 3 with
  | Ret (q, _) => q
  | Fatal => pool8
  end.

(** Four frames from frame 0 on, the bitmap in frame 9, and the range of
    its first two frames marked inaccessible twice. *)
Definition pool4 : ContFramePool :=
  pool_of (construct 4096 zero_memory [] 0 4 9).

Definition pool4_marked_twice : ContFramePool :=
  mark_inaccessible (mark_inaccessible pool4 0 2) 0 2.

(** Memory that is not zero behind a bitmap of one byte: frame 1 starts at
    byte 4096, and byte 4097 holds [0x03]. *)
Definition stale_memory : memory := fun a => if a =? 4097 then 3 else 0.

(** Four frames from frame 16 on, the bitmap in frame 1 of [stale_memory]. *)
Definition pool4_stale : ContFramePool :=
  pool_of (construct 4096 stale_memory [] 16 4 1).

(** Eight frames from frame 16 on, the bitmap in frame 1. *)
Definition pool8_ext : ContFramePool :=
  pool_of (construct 4096 zero_memory [] 16 8 1).

(** ** Concrete virtual-memory pools

    The page size is 4096 there and the table has 16 slots. *)

Definition no_regions : region_table := fun _ => mkRegion 0 0.

(** Three pages from address [0x40000000] on, no region yet. *)
Definition vm_fresh : VMPool := mkVMPool 1073741824 12288 0 no_regions.

(** A pool whose base address is not a multiple of the page size. *)
Definition vm_unaligned : VMPool := mkVMPool 100 12288 0 no_regions.

(** A pool of two pages whose base address is the last page of the 32-bit
    address space: [_base_address + _size] is above [2^32 - 1]. *)
Definition vm_top : VMPool := mkVMPool 4294963200 8192 0 no_regions.

(** A pool that spans the whole 32-bit address space. *)
Definition vm_whole : VMPool := mkVMPool 0 4294967295 0 no_regions.

(** [vm_fresh] after [allocate(4096)] twice. *)
Definition vm_two : VMPool :=
  match allocate_all 4096 16 vm_fresh [4096; 4096] with
  | Ret (p, _) => p
  | Fatal => vm_fresh
  end.

(** ** What the further properties speak of *)

(** The two bits that [set_state] stores for a state. *)
Definition state_code (st : FrameState) : Z :=
  match st with
  | Free => 0
  | Used => 3
  | HoS => 2
  end.

(** The two bits of a byte at [position], and the two bits of a frame. *)
Definition field_of_byte (byte position : Z) : Z :=
  (byte / 2 ^ position) mod 4.

Definition frame_field (bm : memory) (f : Z) : Z :=
  field_of_byte (load_byte bm (f / 4)) (2 * (f mod 4)).

(** How [get_state] reads two bits. *)
Definition state_of_code (c : Z) : FrameState :=
  if c =? 0 then Free else if c =? 3 then Used else HoS.

Definition check_code : bool :=
  forallb (fun b => forallb (fun pos => forallb (fun pos' => forallb (fun st =>
    (field_of_byte (write_bits b pos st) pos' =?
     if pos' =? pos then state_code st else field_of_byte b pos')
    && FrameState_eqb (read_bits b pos) (state_of_code (field_of_byte b pos)))
    all_states) all_positions) all_positions) all_bytes.

(** The fields of a pool that the registry lookup reads. *)
Definition same_range (p q : ContFramePool) : Prop :=
  base_frame_no q = base_frame_no p /\
  n_frames q = n_frames p /\
  info_frame_no q = info_frame_no p.

(** The live regions of a pool have sizes that are not negative, are in
    ascending order and do not overlap. *)
Definition regions_ordered (p : VMPool) : Prop :=
  (forall j, 0 <= j < region_iterator p ->
             0 <= region_size (allocated_region p j)) /\
  (forall i j, 0 <= i < j -> j < region_iterator p ->
               region_before (allocated_region p i) (allocated_region p j)).

(** The page addresses of a region. *)
Definition pages_of (PAGE_SIZE : Z) (d : allocated_vm_region) : list Z :=
  map (fun i => ulong (region_base_address d + i * PAGE_SIZE))
      (indices (region_size d / PAGE_SIZE)).

(** ** More concrete pools *)

(** A second pool behind [pool8] whose frames 20 to 27 overlap its range. *)
Definition pool_overlap : ContFramePool :=
  pool_of (construct 4096 zero_memory [pool8] 20 8 1).

(** [pool4] after [get_frames(2)]: frame 0 is the head of a run. *)
Definition pool4_taken : ContFramePool :=
  match get_frames pool4 2 with
  | Ret (q, _) => q
  | Fatal => pool4
  end.

(** [pool8_taken] after a second [get_frames(2)]. *)
Definition pool8_taken_twice : ContFramePool :=
  match get_frames pool8_taken 2 with
  | Ret (q, _) => q
  | Fatal => pool8_taken
  end.

(** [vm_two] after [release] of its first region. *)
Definition vm_two_released : VMPool := fst (release 4096 vm_two 1073741824).

(** Three regions of one page each in [vm_fresh]. *)
Definition vm_three : VMPool :=
  match allocate_all 4096 16 vm_fresh [4096; 4096; 4096] with
  | Ret (p, _) => p
  | Fatal => vm_fresh
  end.

(** * Properties *)

(** ** Machine integers and memory *)

Lemma ulong_range x : 0 <= ulong x < 2 ^ 32.
Proof. unfold ulong. apply Z.mod_pos_bound. reflexivity. Qed.

Lemma ulong_small x : 0 <= x < 2 ^ 32 -> ulong x = x.
Proof. intros H. unfold ulong. apply Z.mod_small. exact H. Qed.

Lemma uchar_range x : 0 <= uchar x < 256.
Proof. unfold uchar. apply Z.mod_pos_bound. reflexivity. Qed.

Lemma uchar_small x : 0 <= x < 256 -> uchar x = x.
Proof. intros H. unfold uchar. apply Z.mod_small. exact H. Qed.

Lemma ulong_sub_sub x a b : ulong (ulong (x - a) - b) = ulong (x - (a + b)).
Proof.
  unfold ulong. rewrite Zminus_mod_idemp_l. f_equal. lia.
Qed.

Lemma ulong_add_add x a b : ulong (ulong (x + a) + b) = ulong (x + (a + b)).
Proof.
  unfold ulong. rewrite Zplus_mod_idemp_l. f_equal. lia.
Qed.

Lemma load_store_same m i v : load_byte (store_byte m i v) i = uchar v.
Proof.
  unfold load_byte, store_byte. rewrite Z.eqb_refl. unfold uchar.
  apply Z.mod_mod. discriminate.
Qed.

Lemma load_store_other m i j v : j <> i -> load_byte (store_byte m i v) j = load_byte m j.
Proof.
  intros H. unfold load_byte, store_byte.
  destruct (Z.eqb_spec j i); [contradiction | reflexivity].
Qed.

Lemma FrameState_eqb_spec a b : reflect (a = b) (FrameState_eqb a b).
Proof. destruct a, b; simpl; constructor; congruence. Qed.

(** ** The two-bit fields of one byte *)

Lemma in_all_bytes b : 0 <= b < 256 -> In b all_bytes.
Proof.
  intros H. unfold all_bytes. apply in_map_iff.
  exists (Z.to_nat b). split; [lia |].
  apply in_seq. lia.
Qed.

Lemma in_all_positions f : In (2 * (f mod 4)) all_positions.
Proof.
  pose proof (Z.mod_pos_bound f 4 eq_refl) as H.
  assert (C : f mod 4 = 0 \/ f mod 4 = 1 \/ f mod 4 = 2 \/ f mod 4 = 3) by lia.
  unfold all_positions.
  destruct C as [C | [C | [C | C]]]; rewrite C; simpl; tauto.
Qed.

Lemma in_all_states s : In s all_states.
Proof. destruct s; simpl; tauto. Qed.

Lemma check_same_ok : check_same = true.
Proof. vm_compute. reflexivity. Qed.

Lemma check_other_ok : check_other = true.
Proof. vm_compute. reflexivity. Qed.

Lemma write_bits_range b pos st : 0 <= write_bits b pos st < 256.
Proof. destruct st; simpl; apply uchar_range. Qed.

Lemma read_write_same b f st :
  0 <= b < 256 ->
  read_bits (write_bits b (2 * (f mod 4)) st) (2 * (f mod 4)) = st.
Proof.
  intros Hb.
  pose proof check_same_ok as H. unfold check_same in H.
  rewrite forallb_forall in H. specialize (H b (in_all_bytes b Hb)).
  rewrite forallb_forall in H. specialize (H _ (in_all_positions f)).
  rewrite forallb_forall in H. specialize (H st (in_all_states st)).
  destruct (FrameState_eqb_spec
              (read_bits (write_bits b (2 * (f mod 4)) st) (2 * (f mod 4))) st);
    [assumption | discriminate].
Qed.

Lemma read_write_other b f g st :
  0 <= b < 256 ->
  f mod 4 <> g mod 4 ->
  read_bits (write_bits b (2 * (f mod 4)) st) (2 * (g mod 4))
  = read_bits b (2 * (g mod 4)).
Proof.
  intros Hb Hne.
  pose proof check_other_ok as H. unfold check_other in H.
  rewrite forallb_forall in H. specialize (H b (in_all_bytes b Hb)).
  rewrite forallb_forall in H. specialize (H _ (in_all_positions f)).
  rewrite forallb_forall in H. specialize (H _ (in_all_positions g)).
  rewrite forallb_forall in H. specialize (H st (in_all_states st)).
  apply orb_true_iff in H. destruct H as [H | H].
  - apply Z.eqb_eq in H. lia.
  - destruct (FrameState_eqb_spec
                (read_bits (write_bits b (2 * (f mod 4)) st) (2 * (g mod 4)))
                (read_bits b (2 * (g mod 4))));
      [assumption | discriminate].
Qed.

Lemma get_set_same bm f st : get_state (set_state bm f st) f = st.
Proof.
  unfold get_state, set_state.
  rewrite load_store_same.
  rewrite uchar_small by apply write_bits_range.
  apply read_write_same. apply uchar_range.
Qed.

Lemma get_set_other bm f g st :
  g <> f -> get_state (set_state bm f st) g = get_state bm g.
Proof.
  intros Hne. unfold get_state, set_state.
  destruct (Z.eq_dec (g / 4) (f / 4)) as [E | E].
  - rewrite E, load_store_same.
    rewrite uchar_small by apply write_bits_range.
    apply read_write_other; [apply uchar_range |].
    intros Hm. apply Hne.
    rewrite (Z.div_mod g 4), (Z.div_mod f 4) by discriminate. lia.
  - rewrite load_store_other by exact E. reflexivity.
Qed.


(** Closed range facts and frame states are settled by evaluation. *)
Ltac by_eval :=
  vm_compute; first [ reflexivity | let X := fresh in intro X; discriminate X ].

Ltac in_range_eval :=
  unfold pool_in_range; repeat split; by_eval.

(** ** Marking a run *)

Lemma mark_used_fields k : forall i p,
  base_frame_no (mark_used k i p) = base_frame_no p /\
  n_frames (mark_used k i p) = n_frames p /\
  info_frame_no (mark_used k i p) = info_frame_no p.
Proof.
  induction k as [| k IH]; intros i p; simpl.
  - repeat split.
  - destruct (IH (ulong (i + 1)) (take_frame p i Used)) as [H1 [H2 H3]].
    simpl in *. auto.
Qed.

Lemma mark_used_n_free k : forall i p,
  0 <= n_free_frames p < 2 ^ 32 ->
  n_free_frames (mark_used k i p) = ulong (n_free_frames p - Z.of_nat k).
Proof.
  induction k as [| k IH]; intros i p Hr.
  - simpl. rewrite Z.sub_0_r. symmetry. apply ulong_small. exact Hr.
  - cbn [mark_used]. rewrite IH by (simpl; apply ulong_range).
    simpl n_free_frames. rewrite ulong_sub_sub. f_equal. lia.
Qed.

Lemma mark_used_state k : forall i p j,
  0 <= i -> i + Z.of_nat k <= 2 ^ 32 ->
  get_state (bitmap (mark_used k i p)) j =
  if (i <=? j) && (j <? i + Z.of_nat k) then Used else get_state (bitmap p) j.
Proof.
  induction k as [| k IH]; intros i p j Hi Hk.
  - simpl. rewrite Z.add_0_r.
    destruct (Z.leb_spec i j), (Z.ltb_spec j i); simpl; try reflexivity; lia.
  - cbn [mark_used]. destruct k as [| k'].
    + simpl mark_used. simpl bitmap.
      destruct (Z.leb_spec i j), (Z.ltb_spec j (i + Z.of_nat 1));
        simpl; try (apply get_set_other; lia).
      assert (j = i) by lia. subst j. apply get_set_same.
    + rewrite (ulong_small (i + 1)) by lia.
      rewrite IH by lia. simpl bitmap.
      destruct (Z.leb_spec (i + 1) j),
               (Z.ltb_spec j (i + 1 + Z.of_nat (S k'))),
               (Z.leb_spec i j), (Z.ltb_spec j (i + Z.of_nat (S (S k'))));
        simpl; try reflexivity; try lia.
      all: first [ apply get_set_other; lia
                 | assert (j = i) by lia; subst j; apply get_set_same ].
Qed.

(** ** The first-fit search *)

Lemma run_free_empty bm s : run_free bm s 0.
Proof. intros j Hj. lia. Qed.

Lemma run_free_snoc bm s c :
  0 <= c -> run_free bm s c -> get_state bm (s + c) = Free ->
  run_free bm s (c + 1).
Proof.
  intros Hc Hrun Hlast j Hj.
  destruct (Z.eq_dec j (s + c)) as [-> | Hne]; [exact Hlast |].
  apply Hrun. lia.
Qed.

(** The loop invariant: [count] free frames end just before [i], and no run
    of [n] free frames starts before them. *)
Lemma scan_spec bm n N :
  1 <= n < 2 ^ 32 -> 0 <= N < 2 ^ 32 ->
  forall k i c,
    0 <= c < n -> c <= i -> i + Z.of_nat k = N ->
    run_free bm (i - c) c ->
    (forall s', 0 <= s' < i - c -> ~ run_free bm s' n) ->
    match scan k bm n i c with
    | Some e =>
        0 <= e - n + 1 /\ e < N /\ run_free bm (e - n + 1) n /\
        (forall s', 0 <= s' < e - n + 1 -> ~ run_free bm s' n)
    | None =>
        forall s', 0 <= s' -> s' + n <= N -> ~ run_free bm s' n
    end.
Proof.
  intros Hn HN. induction k as [| k IH]; intros i c Hc Hci Hik Hrun Hlow.
  - simpl. intros s' Hs' Hfit.
    destruct (Z_lt_le_dec s' (i - c)) as [Hlt | Hge].
    + apply Hlow. lia.
    + lia.
  - cbn [scan].
    destruct (FrameState_eqb_spec (get_state bm i) Free) as [Hfree | Hbusy].
    + rewrite (ulong_small (c + 1)) by lia.
      assert (Hrun' : run_free bm (i - c) (c + 1)).
      { apply run_free_snoc; [lia | exact Hrun |].
        replace (i - c + c) with i by lia. exact Hfree. }
      destruct (Z.eqb_spec (c + 1) n) as [Heq | Hneq].
      * replace (i - n + 1) with (i - c) by lia.
        split; [lia | split; [lia | split; [| exact Hlow]]].
        rewrite <- Heq. exact Hrun'.
      * rewrite (ulong_small (i + 1)) by lia.
        apply IH; try lia.
        -- replace (i + 1 - (c + 1)) with (i - c) by lia. exact Hrun'.
        -- replace (i + 1 - (c + 1)) with (i - c) by lia. exact Hlow.
    + destruct (Z.eqb_spec 0 n) as [Heq | _]; [lia |].
      rewrite (ulong_small (i + 1)) by lia.
      apply IH; try lia.
      * replace (i + 1 - 0) with (i + 1) by lia. apply run_free_empty.
      * intros s' Hs' Hrun'.
        destruct (Z_lt_le_dec s' (i - c)) as [Hlt | Hge].
        -- apply (Hlow s'); [lia | exact Hrun'].
        -- apply Hbusy. apply Hrun'. lia.
Qed.

Lemma scan_from_start bm n N :
  1 <= n < 2 ^ 32 -> 0 <= N < 2 ^ 32 ->
  match scan (Z.to_nat N) bm n 0 0 with
  | Some e =>
      0 <= e - n + 1 /\ e < N /\ run_free bm (e - n + 1) n /\
      (forall s', 0 <= s' < e - n + 1 -> ~ run_free bm s' n)
  | None =>
      forall s', 0 <= s' -> s' + n <= N -> ~ run_free bm s' n
  end.
Proof.
  intros Hn HN.
  apply (scan_spec bm n N Hn HN); try lia; unfold run_free; intros; lia.
Qed.

(** What marking a run does: [set_state(s, HoS); n_free_frames--;] followed
    by the loop over the other [n - 1] frames. *)
Lemma marked_run_spec p s n :
  0 <= s -> 1 <= n -> s + n <= 2 ^ 32 ->
  let q := mark_used (Z.to_nat (n - 1)) (s + 1) (take_frame p s HoS) in
  get_state (bitmap q) s = HoS /\
  (forall j, s < j < s + n -> get_state (bitmap q) j = Used) /\
  (forall j, ~ (s <= j < s + n) -> get_state (bitmap q) j = get_state (bitmap p) j) /\
  n_free_frames q = ulong (n_free_frames p - n) /\
  base_frame_no q = base_frame_no p /\
  n_frames q = n_frames p /\
  info_frame_no q = info_frame_no p.
Proof.
  intros Hs Hn Hfit q.
  assert (Hst : forall j,
             get_state (bitmap q) j =
             if (s + 1 <=? j) && (j <? s + 1 + Z.of_nat (Z.to_nat (n - 1)))
             then Used else get_state (set_state (bitmap p) s HoS) j).
  { intros j. unfold q. rewrite mark_used_state by lia. reflexivity. }
  rewrite Z2Nat.id in Hst by lia.
  split; [| split; [| split; [| split]]].
  - rewrite Hst.
    destruct (Z.leb_spec (s + 1) s); [lia |]. simpl. apply get_set_same.
  - intros j Hj. rewrite Hst.
    destruct (Z.leb_spec (s + 1) j), (Z.ltb_spec j (s + 1 + (n - 1)));
      try lia. reflexivity.
  - intros j Hj. rewrite Hst.
    destruct (Z.leb_spec (s + 1) j), (Z.ltb_spec j (s + 1 + (n - 1)));
      simpl; try lia; apply get_set_other; lia.
  - unfold q. rewrite mark_used_n_free by (simpl; apply ulong_range).
    simpl n_free_frames. rewrite ulong_sub_sub. f_equal. lia.
  - unfold q.
    destruct (mark_used_fields (Z.to_nat (n - 1)) (s + 1) (take_frame p s HoS))
      as [H1 [H2 H3]].
    simpl in *. auto.
Qed.

(** [get_frames] once the search has stopped at index [e]. *)
Lemma get_frames_found p n e :
  pool_in_range p -> 1 <= n < 2 ^ 32 -> 0 < n_free_frames p ->
  scan (Z.to_nat (n_frames p)) (bitmap p) n 0 0 = Some e ->
  0 <= e - n + 1 -> e < n_frames p ->
  get_frames p n =
  Ret (mark_used (Z.to_nat (n - 1)) (e - n + 1 + 1)
                 (take_frame p (e - n + 1) HoS),
       ulong (e - n + 1 + base_frame_no p)).
Proof.
  intros (Hb & HN & Hf) Hn Hpos Hscan Hlo Hhi.
  unfold get_frames.
  destruct (Z.ltb_spec 0 (n_free_frames p)); [| lia]. simpl negb. cbv iota.
  rewrite Hscan.
  assert (Hstart : ulong (ulong (e - n) + 1) = e - n + 1).
  { unfold ulong. rewrite Zplus_mod_idemp_l. apply Z.mod_small. lia. }
  rewrite Hstart.
  rewrite (ulong_small (e - n + 1 + 1)) by lia.
  rewrite (ulong_small (e - n + 1 + n)) by lia.
  replace (e - n + 1 + n - (e - n + 1 + 1)) with (n - 1) by lia.
  reflexivity.
Qed.

(** With a run of [n] free frames in the pool the search stops, at the last
    frame of the lowest such run. *)
Lemma scan_finds_run p n :
  pool_in_range p -> 1 <= n < 2 ^ 32 -> has_free_run p n ->
  exists e,
    scan (Z.to_nat (n_frames p)) (bitmap p) n 0 0 = Some e /\
    0 <= e - n + 1 /\ e < n_frames p /\
    run_free (bitmap p) (e - n + 1) n /\
    (forall s', 0 <= s' < e - n + 1 -> ~ run_free (bitmap p) s' n).
Proof.
  intros (Hb & HN & Hf) Hn (s0 & Hs0 & Hfit0 & Hrun0).
  pose proof (scan_from_start (bitmap p) n (n_frames p) Hn HN) as Hscan.
  destruct (scan (Z.to_nat (n_frames p)) (bitmap p) n 0 0) as [e |].
  - exists e. split; [reflexivity | exact Hscan].
  - exfalso. exact (Hscan s0 Hs0 Hfit0 Hrun0).
Qed.

(** ** Theorems on [get_frames] *)

(** C1 (as amended): for every pool with a positive free count and every
    [n >= 1] such that a run of [n] consecutive [Free] frames lies in the
    pool, [get_frames n] succeeds on the lowest such run [s]: no run starts
    below [s]; the frames of the run were all [Free], so the run shares no
    frame with a run that is allocated; afterwards frame [s] is [HoS], the
    [n - 1] frames after it are [Used], every other frame is as before, the
    free count has gone down by [n] and the value returned is the frame
    number [base_frame_no + s] (a 32-bit sum, exact when the frame numbers
    of the pool are 32-bit words). *)
Theorem get_frames_first_fit (p : ContFramePool) (n : Z) :
  pool_in_range p ->
  1 <= n < 2 ^ 32 ->
  0 < n_free_frames p ->
  has_free_run p n ->
  exists s q,
    get_frames p n = Ret (q, ulong (base_frame_no p + s)) /\
    0 <= s /\ s + n <= n_frames p /\
    run_free (bitmap p) s n /\
    (forall s', 0 <= s' < s -> ~ run_free (bitmap p) s' n) /\
    get_state (bitmap q) s = HoS /\
    (forall j, s < j < s + n -> get_state (bitmap q) j = Used) /\
    (forall j, ~ (s <= j < s + n) ->
               get_state (bitmap q) j = get_state (bitmap p) j) /\
    n_free_frames q = ulong (n_free_frames p - n) /\
    base_frame_no q = base_frame_no p /\
    n_frames q = n_frames p /\
    info_frame_no q = info_frame_no p /\
    (base_frame_no p + n_frames p <= 2 ^ 32 ->
     ulong (base_frame_no p + s) = base_frame_no p + s).
Proof.
  intros Hr Hn Hpos Hrun0.
  destruct (scan_finds_run p n Hr Hn Hrun0) as (e & E & Hlo & Hhi & Hrun & Hlow).
  pose proof Hr as (Hb & HN & Hf).
  exists (e - n + 1),
    (mark_used (Z.to_nat (n - 1)) (e - n + 1 + 1)
               (take_frame p (e - n + 1) HoS)).
  split.
  { rewrite (get_frames_found p n e) by assumption.
    rewrite (Z.add_comm (base_frame_no p)). reflexivity. }
  split; [exact Hlo |]. split; [lia |].
  split; [exact Hrun |]. split; [exact Hlow |].
  pose proof (marked_run_spec p (e - n + 1) n) as Hmark.
  cbv zeta in Hmark.
  destruct Hmark as (H1 & H2 & H3 & H4 & H5 & H6 & H7); try lia.
  repeat (split; [assumption |]).
  intros Htop. apply ulong_small. lia.
Qed.

(** C7: for every pool with a positive free count, if no run of [n]
    consecutive [Free] frames lies in the pool, [get_frames n] returns the
    sentinel 0 and the pool, bitmap and free count included, is as it was. *)
Theorem get_frames_no_run (p : ContFramePool) (n : Z) :
  pool_in_range p ->
  0 <= n < 2 ^ 32 ->
  0 < n_free_frames p ->
  ~ has_free_run p n ->
  get_frames p n = Ret (p, 0).
Proof.
  intros Hr Hn Hpos Hnone.
  pose proof Hr as (Hb & HN & Hf).
  destruct (Z.eq_dec n 0) as [-> | Hn0].
  { exfalso. apply Hnone. exists 0.
    split; [lia |]. split; [lia |]. apply run_free_empty. }
  assert (Hn1 : 1 <= n < 2 ^ 32) by lia.
  pose proof (scan_from_start (bitmap p) n (n_frames p) Hn1 HN) as Hscan.
  unfold get_frames.
  destruct (Z.ltb_spec 0 (n_free_frames p)); [| lia]. simpl negb. cbv iota.
  destruct (scan (Z.to_nat (n_frames p)) (bitmap p) n 0 0) as [e |].
  - exfalso. destruct Hscan as (Hlo & Hhi & Hrun & _).
    apply Hnone. exists (e - n + 1).
    split; [exact Hlo |]. split; [lia | exact Hrun].
  - reflexivity.
Qed.

Lemma get_frames_first_fit_witness :
  exists s q,
    get_frames pool8 3 = Ret (q, ulong (16 + s)) /\
    get_state (bitmap q) s = HoS /\
    n_free_frames q = 4.
Proof.
  destruct (get_frames_first_fit pool8 3)
    as (s & q & Hret & _ & _ & _ & _ & Hhead & _ & _ & Hfree & _).
  - in_range_eval.
  - split; by_eval.
  - by_eval.
  - exists 1. split; [lia |]. split; [by_eval |].
    intros j Hj.
    assert (C : j = 1 \/ j = 2 \/ j = 3) by lia.
    destruct C as [-> | [-> | ->]]; by_eval.
  - exists s, q. split; [exact Hret |]. split; [exact Hhead |].
    rewrite Hfree. by_eval.
Defined.

(** C1, as it is stated, fails: [pool4_marked_twice] has its frames 2 and 3
    [Free], a run of one free frame, and a free count of 0, on which
    [get_frames] asserts. *)
Lemma get_frames_zero_count_fatal :
  pool_in_range pool4_marked_twice /\
  has_free_run pool4_marked_twice 1 /\
  n_free_frames pool4_marked_twice = 0 /\
  get_frames pool4_marked_twice 1 = Fatal.
Proof.
  split; [in_range_eval |]. split; [| split; by_eval].
  exists 2. split; [lia |]. split; [by_eval |].
  intros j Hj. assert (j = 2) as -> by lia. by_eval.
Qed.

Lemma get_frames_no_run_witness : get_frames pool8 8 = Ret (pool8, 0).
Proof.
  apply (get_frames_no_run pool8 8).
  - in_range_eval.
  - split; by_eval.
  - by_eval.
  - intros (s & Hs & Hfit & Hrun).
    change (n_frames pool8) with 8 in Hfit.
    assert (s = 0) as -> by lia.
    specialize (Hrun 0). vm_compute in Hrun.
    assert (H : Used = Free) by (apply Hrun; split; by_eval).
    discriminate H.
Defined.

(** ** The free count

    [n_free_frames] against the number of [Free] entries among the pool's
    own frames. *)

Lemma count_free_unfold p : count_free p = count_free_in (bitmap p) (n_frames p).
Proof. reflexivity. Qed.

Lemma in_indices n i : In i (indices n) <-> 0 <= i < n.
Proof.
  unfold indices. rewrite in_map_iff. split.
  - intros (x & <- & Hx). apply in_seq in Hx. lia.
  - intros Hi. exists (Z.to_nat i). split; [lia |]. apply in_seq. lia.
Qed.

Lemma NoDup_indices n : NoDup (indices n).
Proof.
  unfold indices. apply NoDup_map_NoDup_ForallPairs.
  - intros x y _ _ H. apply Nat2Z.inj. exact H.
  - apply seq_NoDup.
Qed.

Lemma count_free_in_bounds bm n : 0 <= n -> 0 <= count_free_in bm n <= n.
Proof.
  intros Hn. unfold count_free_in. split; [lia |].
  pose proof (filter_length_le
                (fun i => FrameState_eqb (get_state bm i) Free) (indices n)) as H.
  unfold indices in H at 2. rewrite length_map, length_seq in H. lia.
Qed.

(** Writing one entry of the pool changes the count by that entry alone. *)
Lemma count_free_in_set bm n i st :
  0 <= i < n ->
  count_free_in (set_state bm i st) n + free_bit (get_state bm i)
  = count_free_in bm n + free_bit st.
Proof.
  intros Hi. unfold count_free_in.
  assert (Hin : In i (indices n)) by (apply in_indices; exact Hi).
  destruct (in_split i (indices n) Hin) as (l1 & l2 & Hsplit).
  pose proof (NoDup_indices n) as Hnd. rewrite Hsplit in Hnd.
  pose proof (NoDup_remove_2 l1 l2 i Hnd) as Hnotin.
  rewrite Hsplit, !filter_app, !length_app. cbn [filter].
  rewrite get_set_same.
  assert (Hext : forall l, ~ In i l ->
            filter (fun j => FrameState_eqb (get_state (set_state bm i st) j) Free) l
            = filter (fun j => FrameState_eqb (get_state bm j) Free) l).
  { intros l Hl. apply filter_ext_in. intros j Hj.
    rewrite get_set_other; [reflexivity |]. intros ->. contradiction. }
  rewrite (Hext l1), (Hext l2)
    by (intros H; apply Hnotin; apply in_or_app; auto).
  unfold free_bit.
  destruct (FrameState_eqb st Free), (FrameState_eqb (get_state bm i) Free);
    cbn [length]; lia.
Qed.

Lemma count_free_in_all_free bm n :
  0 <= n -> run_free bm 0 n -> count_free_in bm n = n.
Proof.
  intros Hn Hrun. unfold count_free_in.
  assert (Hall : forall l, (forall j, In j l -> 0 <= j < n) ->
            filter (fun i => FrameState_eqb (get_state bm i) Free) l = l).
  { induction l as [| x l IH]; intros Hl; [reflexivity |].
    cbn [filter]. rewrite (Hrun x) by (specialize (Hl x (or_introl eq_refl)); lia).
    cbn [FrameState_eqb]. f_equal. apply IH. intros j Hj. apply Hl. right. exact Hj. }
  rewrite Hall by (intros j Hj; apply in_indices; exact Hj).
  unfold indices. rewrite length_map, length_seq. lia.
Qed.

Lemma take_frame_free_count p i st :
  pool_in_range p -> free_count_ok p ->
  0 <= i < n_frames p ->
  get_state (bitmap p) i = Free -> st <> Free ->
  pool_in_range (take_frame p i st) /\ free_count_ok (take_frame p i st).
Proof.
  intros (Hb & HN & Hf) Hok Hi Hfree Hst.
  pose proof (count_free_in_set (bitmap p) (n_frames p) i st Hi) as Hc.
  pose proof (count_free_in_bounds (set_state (bitmap p) i st) (n_frames p))
    as Hbd.
  rewrite Hfree in Hc. unfold free_bit in Hc. cbn [FrameState_eqb] in Hc.
  destruct (FrameState_eqb_spec st Free) as [E | _]; [contradiction |].
  unfold free_count_ok in *. rewrite count_free_unfold in *.
  unfold pool_in_range. cbn [take_frame base_frame_no n_frames n_free_frames
                              info_frame_no bitmap].
  rewrite Hok. rewrite ulong_small by lia.
  repeat split; lia.
Qed.

Lemma give_frame_free_count p i :
  pool_in_range p -> free_count_ok p ->
  0 <= i < n_frames p ->
  get_state (bitmap p) i <> Free ->
  pool_in_range (give_frame p i) /\ free_count_ok (give_frame p i).
Proof.
  intros (Hb & HN & Hf) Hok Hi Hbusy.
  pose proof (count_free_in_set (bitmap p) (n_frames p) i Free Hi) as Hc.
  pose proof (count_free_in_bounds (set_state (bitmap p) i Free) (n_frames p))
    as Hbd.
  unfold free_bit in Hc. cbn [FrameState_eqb] in Hc.
  destruct (FrameState_eqb_spec (get_state (bitmap p) i) Free) as [E | _];
    [contradiction |].
  unfold free_count_ok in *. rewrite count_free_unfold in *.
  unfold pool_in_range. cbn [give_frame base_frame_no n_frames n_free_frames
                              info_frame_no bitmap].
  rewrite Hok. rewrite ulong_small by lia.
  repeat split; lia.
Qed.

Lemma mark_used_free_count : forall k i p,
  pool_in_range p -> free_count_ok p ->
  0 <= i -> i + Z.of_nat k <= n_frames p ->
  run_free (bitmap p) i (Z.of_nat k) ->
  pool_in_range (mark_used k i p) /\ free_count_ok (mark_used k i p).
Proof.
  induction k as [| k IH]; intros i p Hr Hok Hi Hfit Hrun; [simpl; auto |].
  rewrite Nat2Z.inj_succ in *.
  cbn [mark_used].
  destruct (take_frame_free_count p i Used) as [Hr1 Hok1];
    try assumption; try lia; try discriminate.
  { apply Hrun. lia. }
  destruct Hr as (_ & HN & _).
  rewrite (ulong_small (i + 1)) by lia.
  apply IH; try assumption; try (simpl; lia).
  intros j Hj. simpl. rewrite get_set_other by lia. apply Hrun. lia.
Qed.

(** X7: a successful [get_frames] of at least one frame keeps the free
    count equal to the number of free frames. *)
Theorem get_frames_keeps_free_count (p q : ContFramePool) (n f : Z) :
  pool_in_range p -> free_count_ok p ->
  1 <= n < 2 ^ 32 ->
  get_frames p n = Ret (q, f) ->
  pool_in_range q /\ free_count_ok q.
Proof.
  intros Hr Hok Hn Hget.
  pose proof Hr as (Hb & HN & Hf).
  assert (Hpos : 0 < n_free_frames p).
  { unfold get_frames in Hget.
    destruct (Z.ltb_spec 0 (n_free_frames p)); [assumption | discriminate]. }
  pose proof (scan_from_start (bitmap p) n (n_frames p) Hn HN) as Hscan.
  destruct (scan (Z.to_nat (n_frames p)) (bitmap p) n 0 0) as [e |] eqn:E.
  - destruct Hscan as (Hlo & Hhi & Hrun & _).
    rewrite (get_frames_found p n e) in Hget by assumption.
    inversion Hget; subst q f. clear Hget.
    destruct (take_frame_free_count p (e - n + 1) HoS) as [Hr1 Hok1];
      try assumption; try lia; try discriminate.
    { apply Hrun. lia. }
    apply mark_used_free_count; try assumption; try lia.
    + simpl. lia.
    + intros j Hj. simpl. rewrite get_set_other by lia. apply Hrun. lia.
  - unfold get_frames in Hget. rewrite E in Hget.
    destruct (Z.ltb_spec 0 (n_free_frames p)); [| lia].
    inversion Hget; subst. auto.
Qed.

(** ** Construction *)

(** The constructor halts exactly when [_n_frames] exceeds
    [FRAME_SIZE * 8]. *)
Lemma construct_fatal_iff FRAME_SIZE phys reg b n info :
  construct FRAME_SIZE phys reg b n info = Fatal <->
  ulong (FRAME_SIZE * 8) < n.
Proof.
  unfold construct.
  destruct (Z.leb_spec n (ulong (FRAME_SIZE * 8))); simpl; split;
    intros; try lia; try discriminate; reflexivity.
Qed.

Lemma construct_accepts FRAME_SIZE phys reg b n info :
  n <= ulong (FRAME_SIZE * 8) ->
  exists p,
    construct FRAME_SIZE phys reg b n info = Ret (p, reg ++ [p]) /\
    base_frame_no p = b /\ n_frames p = n /\ info_frame_no p = info.
Proof.
  intros H. unfold construct.
  destruct (Z.leb_spec n (ulong (FRAME_SIZE * 8))); [| lia]. simpl negb.
  cbv iota zeta. eexists. split; [reflexivity |].
  destruct (info =? 0); repeat split.
Qed.

(** C3 fails on the code: the bound of the assertion is [FRAME_SIZE * 8],
    twice the [FRAME_SIZE * 8 / 2] frames that one frame of two-bit entries
    describes.  For [n_frames] between the two the constructor does not
    halt: it builds the pool, though the entry of the pool's last frame lies
    at byte [FRAME_SIZE] of the bitmap or behind, outside the info frame,
    and [needed_info_frames] itself asks for two frames. *)
Theorem construct_admits_oversized_pool
        (FRAME_SIZE : Z) (phys : memory) (reg : registry) (b n info : Z) :
  0 < FRAME_SIZE ->
  8 * FRAME_SIZE < 2 ^ 32 ->
  FRAME_SIZE * 8 / 2 < n <= FRAME_SIZE * 8 ->
  (exists p,
      construct FRAME_SIZE phys reg b n info = Ret (p, reg ++ [p]) /\
      n_frames p = n) /\
  FRAME_SIZE <= (n - 1) / 4 /\
  needed_info_frames FRAME_SIZE n = 2.
Proof.
  intros Hpos Hword Hn.
  assert (Hhalf : FRAME_SIZE * 8 / 2 = 4 * FRAME_SIZE).
  { replace (FRAME_SIZE * 8) with (4 * FRAME_SIZE * 2) by lia.
    apply Z.div_mul. discriminate. }
  rewrite Hhalf in Hn.
  split; [| split].
  - destruct (construct_accepts FRAME_SIZE phys reg b n info)
      as (p & Hp & _ & Hf & _).
    + rewrite ulong_small by lia. lia.
    + exists p. split; assumption.
  - apply Z.div_le_lower_bound; lia.
  - unfold needed_info_frames.
    rewrite (ulong_small (8 * FRAME_SIZE)) by lia.
    replace (8 * FRAME_SIZE) with (FRAME_SIZE * 8) by lia. rewrite Hhalf.
    pose proof (Z.div_mod n (4 * FRAME_SIZE)) as Hdm.
    pose proof (Z.mod_pos_bound n (4 * FRAME_SIZE)) as Hr.
    assert (Hq : n / (4 * FRAME_SIZE) = 1 \/ n / (4 * FRAME_SIZE) = 2) by nia.
    destruct Hq as [Hq | Hq]; rewrite Hq in *.
    + destruct (Z.ltb_spec 0 (n mod (4 * FRAME_SIZE))); [reflexivity | lia].
    + destruct (Z.ltb_spec 0 (n mod (4 * FRAME_SIZE))); [lia | reflexivity].
Qed.

Lemma construct_admits_oversized_pool_witness :
  (exists p,
      construct 4096 zero_memory [] 16 16385 0 = Ret (p, [p]) /\
      n_frames p = 16385) /\
  4096 <= (16385 - 1) / 4 /\
  needed_info_frames 4096 16385 = 2.
Proof.
  apply (construct_admits_oversized_pool 4096 zero_memory [] 16 16385 0).
  - by_eval.
  - by_eval.
  - split; by_eval.
Defined.

Lemma init_free_spec : forall k fno bm j,
  0 <= fno -> fno + Z.of_nat k <= 2 ^ 32 ->
  get_state (init_free k fno bm) j =
  if (fno <=? j) && (j <? fno + Z.of_nat k) then Free else get_state bm j.
Proof.
  induction k as [| k IH]; intros fno bm j Hf Hk.
  - simpl. rewrite Z.add_0_r.
    destruct (Z.leb_spec fno j), (Z.ltb_spec j fno); simpl; try reflexivity; lia.
  - cbn [init_free]. destruct k as [| k'].
    + simpl init_free.
      destruct (Z.leb_spec fno j), (Z.ltb_spec j (fno + Z.of_nat 1));
        simpl; try (apply get_set_other; lia).
      assert (j = fno) by lia. subst j. apply get_set_same.
    + rewrite (ulong_small (fno + 1)) by lia.
      rewrite IH by lia.
      destruct (Z.leb_spec (fno + 1) j),
               (Z.ltb_spec j (fno + 1 + Z.of_nat (S k'))),
               (Z.leb_spec fno j), (Z.ltb_spec j (fno + Z.of_nat (S (S k'))));
        simpl; try reflexivity; try lia.
      all: first [ apply get_set_other; lia
                 | assert (j = fno) by lia; subst j; apply get_set_same ].
Qed.

(** X4: the constructor establishes the free count, for a pool of at least
    one frame when the bitmap is in the pool's own first frame: the free
    count is the number of [Free] entries, and every entry of the pool is
    [Free] but entry 0 of a pool that holds its own bitmap. *)
Theorem construct_free_count
        (FRAME_SIZE : Z) (phys : memory) (reg reg' : registry)
        (b n info : Z) (p : ContFramePool) :
  0 <= b < 2 ^ 32 -> 0 <= n < 2 ^ 32 ->
  (info = 0 -> 1 <= n) ->
  construct FRAME_SIZE phys reg b n info = Ret (p, reg') ->
  pool_in_range p /\ free_count_ok p /\
  (forall j, (if info =? 0 then 1 else 0) <= j < n ->
             get_state (bitmap p) j = Free).
Proof.
  intros Hb Hn Hself H. unfold construct in H.
  destruct (negb (n <=? ulong (FRAME_SIZE * 8))); [discriminate |].
  cbv zeta in H.
  set (bm0 := fun i => phys ((if info =? 0 then ulong (b * FRAME_SIZE)
                              else ulong (info * FRAME_SIZE)) + i)) in *.
  set (bm1 := init_free (Z.to_nat n) 0 bm0) in *.
  set (p1 := mkPool b n n info bm1) in *.
  assert (Hfree1 : run_free bm1 0 n).
  { intros j Hj. unfold bm1. rewrite init_free_spec by lia.
    rewrite Z2Nat.id by lia.
    destruct (Z.leb_spec 0 j), (Z.ltb_spec j (0 + n)); try lia. reflexivity. }
  assert (Hr1 : pool_in_range p1) by (unfold pool_in_range; simpl; lia).
  assert (Hok1 : free_count_ok p1).
  { unfold free_count_ok. rewrite count_free_unfold. simpl.
    symmetry. apply count_free_in_all_free; [lia | exact Hfree1]. }
  destruct (Z.eqb_spec info 0) as [E | E].
  - inversion H; subst p reg'. clear H.
    destruct (take_frame_free_count p1 0 Used) as [Hr2 Hok2];
      try assumption; try discriminate.
    + simpl. specialize (Hself E). lia.
    + apply Hfree1. specialize (Hself E). lia.
    + split; [exact Hr2 |]. split; [exact Hok2 |].
      intros j Hj. simpl. rewrite get_set_other by lia. apply Hfree1. lia.
  - inversion H; subst p reg'. clear H.
    split; [exact Hr1 |]. split; [exact Hok1 |].
    intros j Hj. apply Hfree1. lia.
Qed.

(** ** [mark_inaccessible] *)

(** X16: [mark_inaccessible b n] marks the bitmap entries [b .. b+n-1],
    the first [HoS] and the others [Used], leaves every other entry as it
    is and lowers the free count by [n]: it uses its first argument as the
    bitmap index, whatever the pool's [base_frame_no]. *)
Lemma mark_inaccessible_marks p b n :
  0 <= b -> 1 <= n -> b + n < 2 ^ 32 ->
  let q := mark_inaccessible p b n in
  get_state (bitmap q) b = HoS /\
  (forall j, b < j < b + n -> get_state (bitmap q) j = Used) /\
  (forall j, ~ (b <= j < b + n) -> get_state (bitmap q) j = get_state (bitmap p) j) /\
  n_free_frames q = ulong (n_free_frames p - n) /\
  base_frame_no q = base_frame_no p /\
  n_frames q = n_frames p /\
  info_frame_no q = info_frame_no p.
Proof.
  intros Hb Hn Hfit. unfold mark_inaccessible.
  rewrite (ulong_small (b + 1)), (ulong_small (b + n)) by lia.
  replace (b + n - (b + 1)) with (n - 1) by lia.
  apply marked_run_spec; lia.
Qed.

(** C8 fails on the code: [pool8_ext] holds the frames 16 to 23.  Marking
    its frames 18 and 19 inaccessible leaves their bitmap entries, 2 and 3,
    [Free], and writes [HoS] and [Used] to the entries 18 and 19 instead,
    which are no frames of the pool; the free count goes down by 2 while
    all 8 frames of the pool still read [Free]. *)
Theorem mark_inaccessible_ignores_base :
  base_frame_no pool8_ext = 16 /\
  n_frames pool8_ext = 8 /\
  get_state (bitmap (mark_inaccessible pool8_ext 18 2)) 2 = Free /\
  get_state (bitmap (mark_inaccessible pool8_ext 18 2)) 3 = Free /\
  get_state (bitmap (mark_inaccessible pool8_ext 18 2)) 18 = HoS /\
  get_state (bitmap (mark_inaccessible pool8_ext 18 2)) 19 = Used /\
  n_free_frames (mark_inaccessible pool8_ext 18 2) = 6 /\
  count_free (mark_inaccessible pool8_ext 18 2) = 8.
Proof. repeat split; by_eval. Qed.

(** X17: [mark_inaccessible] keeps the free count equal to the number of
    free frames when the bitmap entries [b .. b+n-1] that it writes are
    entries of the pool's frames and read [Free]. *)
Theorem mark_inaccessible_keeps_free_count (p : ContFramePool) (b n : Z) :
  pool_in_range p -> free_count_ok p ->
  0 <= b -> 1 <= n -> b + n <= n_frames p ->
  run_free (bitmap p) b n ->
  pool_in_range (mark_inaccessible p b n) /\
  free_count_ok (mark_inaccessible p b n).
Proof.
  intros Hr Hok Hb Hn Hfit Hrun.
  pose proof Hr as (_ & HN & _).
  unfold mark_inaccessible.
  rewrite (ulong_small (b + 1)), (ulong_small (b + n)) by lia.
  destruct (take_frame_free_count p b HoS) as [Hr1 Hok1];
    try assumption; try lia; try discriminate.
  { apply Hrun. lia. }
  apply mark_used_free_count; try assumption; try lia.
  - simpl. lia.
  - intros j Hj. simpl. rewrite get_set_other by lia. apply Hrun. lia.
Qed.

(** ** The registry lookup and the refusals of [release_frames] *)

Lemma in_pool_range_true p f :
  pool_in_range p -> in_pool_range p f = true ->
  base_frame_no p <= f < base_frame_no p + n_frames p /\ f < 2 ^ 32.
Proof.
  intros (Hb & HN & _) H. unfold in_pool_range in H.
  apply andb_true_iff in H. destruct H as [H1 H2].
  apply Z.leb_le in H1. apply Z.ltb_lt in H2.
  pose proof (ulong_range (base_frame_no p + n_frames p)) as Hu.
  assert (Hle : ulong (base_frame_no p + n_frames p)
                <= base_frame_no p + n_frames p).
  { unfold ulong. apply Z.mod_le; lia. }
  lia.
Qed.

Lemma find_pool_none reg f :
  Forall pool_in_range reg ->
  (forall p, In p reg ->
             ~ (base_frame_no p <= f < base_frame_no p + n_frames p)) ->
  find_pool reg f = None.
Proof.
  induction reg as [| p rest IH]; intros Hr Hout; [reflexivity |].
  inversion Hr as [| ? ? Hp Hrest]; subst.
  simpl. destruct (in_pool_range p f) eqn:E.
  - exfalso. apply (Hout p); [left; reflexivity |].
    apply (in_pool_range_true p f Hp E).
  - rewrite IH; [reflexivity | exact Hrest |].
    intros q Hq. apply Hout. right. exact Hq.
Qed.

Lemma find_pool_some reg f : forall k p,
  find_pool reg f = Some (k, p) ->
  nth_error reg k = Some p /\ in_pool_range p f = true /\
  (forall k' q, (k' < k)%nat -> nth_error reg k' = Some q ->
                in_pool_range q f = false).
Proof.
  induction reg as [| p0 rest IH]; intros k p H; [discriminate |].
  simpl in H. destruct (in_pool_range p0 f) eqn:E.
  - inversion H; subst. simpl. repeat split; auto.
    intros k' q Hk. inversion Hk.
  - destruct (find_pool rest f) as [[k0 q0] |] eqn:F; [| discriminate].
    inversion H; subst.
    destruct (IH k0 p eq_refl) as (H1 & H2 & H3).
    simpl. repeat split; auto.
    intros k' q Hk Hq. destruct k' as [| k'].
    + simpl in Hq. inversion Hq; subst. exact E.
    + simpl in Hq. apply (H3 k' q); [apply PeanoNat.lt_S_n; exact Hk | exact Hq].
Qed.

(** C6: [release_frames f] refuses, and hands back the registry as it was,
    every pool with its bitmap and free count, when [f] lies in the range
    [base_frame_no, base_frame_no + n_frames) of no registered pool (the
    refusal [Pool not found]) and when the state of [f] in the pool that the
    lookup finds for it is not [HoS], that is [Used] or [Free] (the refusal
    [First frame is not a head frame]).  No iteration is needed for it. *)
Theorem release_frames_rejects (fuel : nat) (reg : registry) (f : Z) :
  Forall pool_in_range reg ->
  ((forall p, In p reg ->
              ~ (base_frame_no p <= f < base_frame_no p + n_frames p)) ->
   release_frames fuel reg f = Some (reg, PoolNotFound)) /\
  (forall k p,
      find_pool reg f = Some (k, p) ->
      get_state (bitmap p) (f - base_frame_no p) <> HoS ->
      release_frames fuel reg f = Some (reg, NotHeadFrame)).
Proof.
  intros Hr. split.
  - intros Hout. unfold release_frames.
    rewrite (find_pool_none reg f Hr Hout). reflexivity.
  - intros k p Hfind Hstate. unfold release_frames. rewrite Hfind.
    destruct (find_pool_some reg f k p Hfind) as (Hnth & Hin & _).
    assert (Hp : pool_in_range p).
    { rewrite Forall_forall in Hr. apply Hr.
      apply (nth_error_In reg k). exact Hnth. }
    destruct (in_pool_range_true p f Hp Hin) as [Hf Hf32].
    destruct Hp as (Hb & _).
    rewrite (ulong_small (f - base_frame_no p)) by lia.
    destruct (FrameState_eqb_spec
                (get_state (bitmap p) (f - base_frame_no p)) HoS) as [E | E];
      [contradiction | reflexivity].
Qed.

Lemma release_frames_rejects_witness :
  release_frames 0 [pool8_taken] 40 = Some ([pool8_taken], PoolNotFound) /\
  release_frames 0 [pool8_taken] 18 = Some ([pool8_taken], NotHeadFrame) /\
  release_frames 0 [pool8_taken] 20 = Some ([pool8_taken], NotHeadFrame).
Proof.
  assert (Hr : Forall pool_in_range [pool8_taken]).
  { constructor; [in_range_eval | constructor]. }
  destruct (release_frames_rejects 0 [pool8_taken] 40 Hr) as [Hnone _].
  destruct (release_frames_rejects 0 [pool8_taken] 18 Hr) as [_ Hused].
  destruct (release_frames_rejects 0 [pool8_taken] 20 Hr) as [_ Hfree].
  split; [| split].
  - apply Hnone. intros p [<- | []].
    change (base_frame_no pool8_taken) with 16.
    change (n_frames pool8_taken) with 8. lia.
  - apply (Hused O pool8_taken); by_eval.
  - apply (Hfree O pool8_taken); by_eval.
Defined.

(** ** The sweep of [release_frames] *)

Lemma release_sweep_fuel : forall fuel p f r,
  release_sweep fuel p f = Some r ->
  forall fuel', (fuel <= fuel')%nat -> release_sweep fuel' p f = Some r.
Proof.
  induction fuel as [| fuel IH]; intros p f r H fuel' Hle; [discriminate |].
  destruct fuel' as [| fuel']; [inversion Hle |].
  cbn [release_sweep] in *.
  destruct (FrameState_eqb
              (get_state (bitmap p) (ulong (f - base_frame_no p))) Used).
  - apply (IH _ _ _ H). apply le_S_n. exact Hle.
  - exact H.
Qed.

Lemma release_frames_fuel fuel reg f out :
  release_frames fuel reg f = Some out ->
  forall fuel', (fuel <= fuel')%nat -> release_frames fuel' reg f = Some out.
Proof.
  unfold release_frames. intros H fuel' Hle.
  destruct (find_pool reg f) as [[k p] |]; [| exact H].
  destruct (negb (FrameState_eqb
                    (get_state (bitmap p) (ulong (f - base_frame_no p))) HoS));
    [exact H |].
  destruct (release_sweep fuel _ _) as [q |] eqn:E; [| discriminate].
  rewrite (release_sweep_fuel fuel _ _ q E fuel' Hle). exact H.
Qed.

Lemma give_frame_state p i j :
  get_state (bitmap (give_frame p i)) j =
  if j =? i then Free else get_state (bitmap p) j.
Proof.
  unfold give_frame. simpl.
  destruct (Z.eqb_spec j i) as [-> | Hne];
    [apply get_set_same | apply get_set_other; exact Hne].
Qed.

Lemma release_sweep_spec : forall m p f,
  0 <= base_frame_no p <= f ->
  f + Z.of_nat m < 2 ^ 32 ->
  0 <= n_free_frames p < 2 ^ 32 ->
  (forall j, f - base_frame_no p <= j < f - base_frame_no p + Z.of_nat m ->
             get_state (bitmap p) j = Used) ->
  get_state (bitmap p) (f - base_frame_no p + Z.of_nat m) <> Used ->
  forall fuel,
  exists r,
    release_sweep (S m + fuel) p f = Some r /\
    (forall j,
        get_state (bitmap r) j =
        if (f - base_frame_no p <=? j) && (j <? f - base_frame_no p + Z.of_nat m)
        then Free else get_state (bitmap p) j) /\
    n_free_frames r = ulong (n_free_frames p + Z.of_nat m) /\
    base_frame_no r = base_frame_no p /\
    n_frames r = n_frames p /\
    info_frame_no r = info_frame_no p.
Proof.
  induction m as [| m IH]; intros p f Hb Hf Hfree Hused Hstop fuel.
  - exists p. cbn [release_sweep Nat.add].
    rewrite (ulong_small (f - base_frame_no p)) by lia.
    rewrite Z.add_0_r in Hstop.
    destruct (FrameState_eqb_spec
                (get_state (bitmap p) (f - base_frame_no p)) Used) as [E | E];
      [contradiction |].
    split; [reflexivity |]. split.
    + intros j. rewrite Z.add_0_r.
      destruct (Z.leb_spec (f - base_frame_no p) j),
               (Z.ltb_spec j (f - base_frame_no p)); simpl; try reflexivity; lia.
    + split; [| repeat split].
      rewrite Z.add_0_r. symmetry. apply ulong_small. exact Hfree.
  - rewrite Nat2Z.inj_succ in *.
    set (i := f - base_frame_no p) in *.
    assert (Hi : get_state (bitmap p) i = Used) by (apply Hused; lia).
    destruct (IH (give_frame p i) (f + 1)) with (fuel := fuel)
      as (r & Hr & Hst & Hcnt & Hbase & Hn & Hinfo).
    + simpl. lia.
    + lia.
    + simpl. apply ulong_range.
    + intros j Hj. simpl base_frame_no in Hj.
      rewrite give_frame_state.
      destruct (Z.eqb_spec j i); [unfold i in *; lia |].
      apply Hused. unfold i in *. lia.
    + simpl base_frame_no. rewrite give_frame_state.
      destruct (Z.eqb_spec (f + 1 - base_frame_no p + Z.of_nat m) i);
        [unfold i in *; lia |].
      replace (f + 1 - base_frame_no p + Z.of_nat m)
        with (i + Z.succ (Z.of_nat m)) by (unfold i; lia).
      exact Hstop.
    + exists r. cbn [release_sweep Nat.add].
      fold i. rewrite (ulong_small i) by (unfold i; lia).
      rewrite Hi. cbn [FrameState_eqb].
      rewrite (ulong_small (f + 1)) by lia.
      split; [exact Hr |]. split.
      * intros j. rewrite Hst. simpl base_frame_no.
        rewrite give_frame_state.
        destruct (Z.leb_spec (f + 1 - base_frame_no p) j),
                 (Z.ltb_spec j (f + 1 - base_frame_no p + Z.of_nat m)),
                 (Z.leb_spec i j), (Z.ltb_spec j (i + Z.succ (Z.of_nat m)));
          simpl; try reflexivity; unfold i in *; try lia;
          destruct (Z.eqb_spec j (f - base_frame_no p)); try reflexivity; lia.
      * split; [| simpl in *; auto].
        rewrite Hcnt. simpl n_free_frames. rewrite ulong_add_add.
        f_equal. lia.
Qed.

(** Releasing a run [HoS, Used, ..., Used] of [n] frames at bitmap index [s]
    that is followed by an entry which is not [Used]. *)
Lemma release_frames_frees_run (reg : registry) (k : nat) (q : ContFramePool)
      (s n : Z) :
  pool_in_range q ->
  0 <= s -> 1 <= n ->
  base_frame_no q + s + n < 2 ^ 32 ->
  find_pool reg (base_frame_no q + s) = Some (k, q) ->
  get_state (bitmap q) s = HoS ->
  (forall j, s < j < s + n -> get_state (bitmap q) j = Used) ->
  get_state (bitmap q) (s + n) <> Used ->
  forall fuel,
  exists r,
    release_frames (Z.to_nat n + fuel) reg (base_frame_no q + s)
    = Some (update_pool reg k r, Released) /\
    (forall j,
        get_state (bitmap r) j =
        if (s <=? j) && (j <? s + n) then Free else get_state (bitmap q) j) /\
    n_free_frames r = ulong (n_free_frames q + n) /\
    base_frame_no r = base_frame_no q /\
    n_frames r = n_frames q /\
    info_frame_no r = info_frame_no q.
Proof.
  intros (Hb & HN & Hf) Hs Hn Hfit Hfind Hhead Hused Hstop fuel.
  set (f := base_frame_no q + s) in *.
  assert (Hidx : ulong (f - base_frame_no q) = s).
  { unfold f. replace (base_frame_no q + s - base_frame_no q) with s by lia.
    apply ulong_small. lia. }
  destruct (release_sweep_spec (Z.to_nat (n - 1)) (give_frame q s) (f + 1))
    with (fuel := fuel) as (r & Hr & Hst & Hcnt & Hbase & Hnf & Hinfo).
  - simpl. unfold f. lia.
  - unfold f. lia.
  - simpl. apply ulong_range.
  - intros j Hj. simpl base_frame_no in Hj. rewrite give_frame_state.
    destruct (Z.eqb_spec j s); [unfold f in *; lia |].
    apply Hused. unfold f in *. lia.
  - simpl base_frame_no. rewrite give_frame_state.
    replace (f + 1 - base_frame_no q + Z.of_nat (Z.to_nat (n - 1)))
      with (s + n) by (unfold f; lia).
    destruct (Z.eqb_spec (s + n) s); [lia | exact Hstop].
  - exists r. unfold release_frames. rewrite Hfind, Hidx, Hhead.
    cbn [FrameState_eqb negb].
    rewrite (ulong_small (f + 1)) by (unfold f; lia).
    replace (Z.to_nat n + fuel)%nat with (S (Z.to_nat (n - 1)) + fuel)%nat
      by lia.
    rewrite Hr.
    split; [reflexivity |]. split.
    + intros j. rewrite Hst. simpl base_frame_no. rewrite give_frame_state.
      replace (f + 1 - base_frame_no q) with (s + 1) by (unfold f; lia).
      rewrite Z2Nat.id by lia.
      destruct (Z.leb_spec (s + 1) j), (Z.ltb_spec j (s + 1 + (n - 1))),
               (Z.leb_spec s j), (Z.ltb_spec j (s + n));
        simpl; try reflexivity; try lia;
        destruct (Z.eqb_spec j s); try reflexivity; lia.
    + split; [| simpl in *; auto].
      rewrite Hcnt. simpl n_free_frames. rewrite ulong_add_add.
      f_equal. lia.
Qed.

(** X11: when the bitmap entry behind the run is not [Used],
    [release_frames] on the frame that [get_frames] returned gives the free
    count and every bitmap entry their values from before the
    allocation. *)
Theorem release_restores_allocation
        (reg : registry) (k : nat) (p q : ContFramePool) (n f : Z) :
  pool_in_range p ->
  base_frame_no p + n_frames p < 2 ^ 32 ->
  1 <= n ->
  has_free_run p n ->
  get_frames p n = Ret (q, f) ->
  find_pool reg f = Some (k, q) ->
  get_state (bitmap p) (f - base_frame_no p + n) <> Used ->
  forall fuel,
  exists r,
    release_frames (Z.to_nat n + fuel) reg f
    = Some (update_pool reg k r, Released) /\
    n_free_frames r = n_free_frames p /\
    (forall j, get_state (bitmap r) j = get_state (bitmap p) j) /\
    base_frame_no r = base_frame_no p /\
    n_frames r = n_frames p /\
    info_frame_no r = info_frame_no p.
Proof.
  intros Hr Htop Hn Hrun0 Hget Hfind Hstop fuel.
  pose proof Hr as (Hb & HN & Hf).
  assert (Hpos : 0 < n_free_frames p).
  { unfold get_frames in Hget.
    destruct (Z.ltb_spec 0 (n_free_frames p)); [assumption | discriminate]. }
  assert (Hn32 : 1 <= n < 2 ^ 32).
  { destruct Hrun0 as (s0 & ? & ? & _). lia. }
  destruct (scan_finds_run p n Hr Hn32 Hrun0)
    as (e & E & Hs & Hhi & Hfree & _).
  rewrite (get_frames_found p n e) in Hget by assumption.
  set (s := e - n + 1) in *.
  rewrite (ulong_small (s + base_frame_no p)) in Hget by lia.
  inversion Hget as [[Hq Hfeq]]. clear Hget.
  pose proof (marked_run_spec p s n) as Hmark. cbv zeta in Hmark.
  rewrite Hq in Hmark.
  destruct Hmark as (Hhead & Hused & Hother & Hcnt & Hbase & Hnf & Hinfo);
    try lia.
  replace (f - base_frame_no p + n) with (s + n) in Hstop by lia.
  replace f with (base_frame_no q + s) in * by lia.
  assert (Hqr : pool_in_range q).
  { unfold pool_in_range. rewrite Hbase, Hnf, Hcnt.
    repeat split; try lia; apply ulong_range. }
  destruct (release_frames_frees_run reg k q s n) with (fuel := fuel)
    as (r & Hrel & Hst & Hcnt' & Hbase' & Hnf' & Hinfo'); try assumption;
    try lia.
  - rewrite Hother by lia. exact Hstop.
  - exists r.
    replace (s + base_frame_no p) with (base_frame_no q + s) by lia.
    split; [exact Hrel |]. split.
    + rewrite Hcnt', Hcnt. unfold ulong. rewrite Zplus_mod_idemp_l.
      replace (n_free_frames p - n + n) with (n_free_frames p) by lia.
      apply Z.mod_small. lia.
    + split.
      * intros j. rewrite Hst.
        destruct (Z.leb_spec s j), (Z.ltb_spec j (s + n)); simpl;
          try (apply Hother; lia).
        symmetry. apply Hfree. lia.
      * repeat split; congruence.
Qed.

(** The run of the specification's example: eight frames, the bitmap in the
    pool's first frame, seven frames free; [get_frames(3)] takes the frames
    1 to 3 and leaves four free; [release_frames] on the first of them
    gives the three back. *)
Example pool8_allocate_release :
  n_free_frames pool8 = 7 /\
  get_frames pool8 3 = Ret (pool8_taken, 17) /\
  map (get_state (bitmap pool8_taken)) [0; 1; 2; 3; 4] =
  [Used; HoS; Used; Used; Free] /\
  n_free_frames pool8_taken = 4 /\
  exists r,
    release_frames 3 [pool8_taken] 17 = Some ([r], Released) /\
    n_free_frames r = 7 /\
    map (get_state (bitmap r)) [0; 1; 2; 3; 4] = [Used; Free; Free; Free; Free].
Proof.
  split; [by_eval |]. split; [by_eval |]. split; [by_eval |].
  split; [by_eval |].
  eexists. split; [reflexivity |]. split; by_eval.
Qed.

(** C2 fails on the code: [pool4_stale] has 4 frames, all free, and the
    bitmap entry behind its last frame happens to read [Used].
    [get_frames(4)] succeeds and returns frame 16.  [release_frames(16)]
    frees the four frames of the run and goes on into the entry behind them:
    the free count ends at 5, not at the 4 it was before the allocation. *)
Theorem release_frames_overruns_pool :
  exists q r,
    n_free_frames pool4_stale = 4 /\
    n_frames pool4_stale = 4 /\
    get_state (bitmap pool4_stale) 4 = Used /\
    get_frames pool4_stale 4 = Ret (q, 16) /\
    (forall fuel, release_frames (5 + fuel) [q] 16 = Some ([r], Released)) /\
    n_free_frames r = 5 /\
    get_state (bitmap r) 4 = Free.
Proof.
  eexists. eexists.
  split; [by_eval |]. split; [by_eval |]. split; [by_eval |].
  split; [reflexivity |].
  split.
  - intros fuel. apply (release_frames_fuel 5); [reflexivity | lia].
  - split; by_eval.
Qed.

Lemma release_sweep_free_count : forall m p f,
  pool_in_range p -> free_count_ok p ->
  base_frame_no p <= f ->
  f + Z.of_nat m < 2 ^ 32 ->
  f - base_frame_no p + Z.of_nat m <= n_frames p ->
  (forall j, f - base_frame_no p <= j < f - base_frame_no p + Z.of_nat m ->
             get_state (bitmap p) j = Used) ->
  get_state (bitmap p) (f - base_frame_no p + Z.of_nat m) <> Used ->
  forall fuel r,
    release_sweep (S m + fuel) p f = Some r ->
    pool_in_range r /\ free_count_ok r.
Proof.
  induction m as [| m IH];
    intros p f Hr Hok Hbf Hf Hfit Hused Hstop fuel r Hsweep.
  - cbn [release_sweep Nat.add] in Hsweep.
    destruct Hr as (Hb & HN & Hfr).
    rewrite (ulong_small (f - base_frame_no p)) in Hsweep by lia.
    rewrite Z.add_0_r in Hstop.
    destruct (FrameState_eqb_spec
                (get_state (bitmap p) (f - base_frame_no p)) Used) as [E | E];
      [contradiction |].
    inversion Hsweep; subst r. unfold pool_in_range. auto.
  - rewrite Nat2Z.inj_succ in *.
    pose proof Hr as (Hb & HN & Hfr).
    set (i := f - base_frame_no p) in *.
    assert (Hi : get_state (bitmap p) i = Used) by (apply Hused; lia).
    cbn [release_sweep Nat.add] in Hsweep. fold i in Hsweep.
    rewrite (ulong_small i) in Hsweep by (unfold i; lia).
    rewrite Hi in Hsweep. cbn [FrameState_eqb] in Hsweep.
    rewrite (ulong_small (f + 1)) in Hsweep by lia.
    destruct (give_frame_free_count p i) as [Hr1 Hok1]; try assumption.
    { unfold i. lia. }
    { rewrite Hi. discriminate. }
    apply (IH (give_frame p i) (f + 1)) with (fuel := fuel);
      try assumption; simpl base_frame_no; simpl n_frames; try lia.
    + intros j Hj. rewrite give_frame_state.
      destruct (Z.eqb_spec j i); [unfold i in *; lia |].
      apply Hused. unfold i in *. lia.
    + rewrite give_frame_state.
      destruct (Z.eqb_spec (f + 1 - base_frame_no p + Z.of_nat m) i);
        [unfold i in *; lia |].
      replace (f + 1 - base_frame_no p + Z.of_nat m)
        with (i + Z.succ (Z.of_nat m)) by (unfold i; lia).
      exact Hstop.
Qed.

(** X12: an accepted [release_frames] keeps the free count equal to the
    number of free frames when the run it frees ends at a frame of the pool
    that is not [Used], or at the end of the pool behind which the bitmap
    does not read [Used]. *)
Theorem release_frames_keeps_free_count
        (reg : registry) (k : nat) (q : ContFramePool) (s n : Z) :
  pool_in_range q -> free_count_ok q ->
  0 <= s -> 1 <= n -> s + n <= n_frames q ->
  base_frame_no q + s + n < 2 ^ 32 ->
  find_pool reg (base_frame_no q + s) = Some (k, q) ->
  get_state (bitmap q) s = HoS ->
  (forall j, s < j < s + n -> get_state (bitmap q) j = Used) ->
  get_state (bitmap q) (s + n) <> Used ->
  forall fuel,
  exists r,
    release_frames (Z.to_nat n + fuel) reg (base_frame_no q + s)
    = Some (update_pool reg k r, Released) /\
    pool_in_range r /\ free_count_ok r.
Proof.
  intros Hr Hok Hs Hn Hin Hfit Hfind Hhead Hused Hstop fuel.
  pose proof Hr as (Hb & HN & Hf).
  set (f := base_frame_no q + s) in *.
  assert (Hidx : ulong (f - base_frame_no q) = s).
  { unfold f. replace (base_frame_no q + s - base_frame_no q) with s by lia.
    apply ulong_small. lia. }
  destruct (give_frame_free_count q s) as [Hr1 Hok1]; try assumption.
  { lia. }
  { rewrite Hhead. discriminate. }
  assert (Hused1 : forall j,
             f + 1 - base_frame_no q <= j
             < f + 1 - base_frame_no q + Z.of_nat (Z.to_nat (n - 1)) ->
             get_state (bitmap (give_frame q s)) j = Used).
  { intros j Hj. rewrite give_frame_state.
    destruct (Z.eqb_spec j s); [unfold f in *; lia |].
    apply Hused. unfold f in *. lia. }
  assert (Hstop1 : get_state (bitmap (give_frame q s))
                     (f + 1 - base_frame_no q + Z.of_nat (Z.to_nat (n - 1)))
                   <> Used).
  { rewrite give_frame_state.
    replace (f + 1 - base_frame_no q + Z.of_nat (Z.to_nat (n - 1)))
      with (s + n) by (unfold f; lia).
    destruct (Z.eqb_spec (s + n) s); [lia | exact Hstop]. }
  destruct (release_sweep_spec (Z.to_nat (n - 1)) (give_frame q s) (f + 1))
    with (fuel := fuel) as (r & Hsweep & _);
    try assumption; simpl base_frame_no; try (unfold f; lia).
  { simpl. apply ulong_range. }
  exists r. split.
  - unfold release_frames. rewrite Hfind, Hidx, Hhead.
    cbn [FrameState_eqb negb].
    rewrite (ulong_small (f + 1)) by (unfold f; lia).
    replace (Z.to_nat n + fuel)%nat with (S (Z.to_nat (n - 1)) + fuel)%nat
      by lia.
    rewrite Hsweep. reflexivity.
  - apply (release_sweep_free_count (Z.to_nat (n - 1)) (give_frame q s) (f + 1))
      with (fuel := fuel); try assumption;
      simpl base_frame_no; simpl n_frames; unfold f; lia.
Qed.

(** C10 fails on the code, by the same sweep: the free count of
    [pool4_stale] is the number of its free frames after construction and
    after [get_frames(4)]; after the accepted [release_frames(16)] the count
    is 5 and the pool has 4 free frames. *)
Theorem free_count_broken_by_release :
  exists q r,
    free_count_ok pool4_stale /\
    get_frames pool4_stale 4 = Ret (q, 16) /\
    free_count_ok q /\
    release_frames 5 [q] 16 = Some ([r], Released) /\
    n_free_frames r = 5 /\
    count_free r = 4.
Proof.
  eexists. eexists.
  split; [by_eval |]. split; [reflexivity |]. split; [by_eval |].
  split; [reflexivity |]. split; by_eval.
Qed.

(** * The virtual-memory pool *)

(** ** [is_legitimate] *)

(** C9 (as amended): take a pool whose fields are 32-bit words.  When
    [_base_address + _size] is below [2^32], [is_legitimate] is true at a
    32-bit address exactly when the address is between [_base_address] and
    [_base_address + _size], both ends included: it is true at both ends,
    and false at the addresses [_base_address - 1] and
    [_base_address + _size + 1], taken in 32 bits as the code takes them,
    unless the pool is the whole address space.  When
    [_base_address + _size] is [2^32] or more, [last_address] wraps to a
    value below [_base_address] and [is_legitimate] is false at every
    address. *)
Theorem is_legitimate_inclusive (p : VMPool) :
  0 <= _base_address p < 2 ^ 32 -> 0 <= _size p < 2 ^ 32 ->
  (_base_address p + _size p < 2 ^ 32 ->
   (forall a, 0 <= a < 2 ^ 32 ->
              (is_legitimate p a = true <->
               _base_address p <= a <= _base_address p + _size p)) /\
   is_legitimate p (_base_address p) = true /\
   is_legitimate p (_base_address p + _size p) = true /\
   (1 <= _base_address p \/ _size p < 2 ^ 32 - 1 ->
    is_legitimate p (ulong (_base_address p - 1)) = false /\
    is_legitimate p (ulong (_base_address p + _size p + 1)) = false)) /\
  (2 ^ 32 <= _base_address p + _size p ->
   forall a, 0 <= a < 2 ^ 32 -> is_legitimate p a = false).
Proof.
  intros Hb Hs. split.
  - intros Hfit. unfold is_legitimate.
    rewrite (ulong_small (_base_address p + _size p)) by lia.
    split; [| split; [| split]].
    + intros a _. rewrite andb_true_iff, Z.leb_le, Z.leb_le. tauto.
    + apply andb_true_iff. rewrite Z.leb_le, Z.leb_le. lia.
    + apply andb_true_iff. rewrite Z.leb_le, Z.leb_le. lia.
    + intros Hpart. split.
      * destruct (Z_le_gt_dec 1 (_base_address p)) as [H1 | H0].
        -- rewrite (ulong_small (_base_address p - 1)) by lia.
           apply andb_false_iff. left. apply Z.leb_gt. lia.
        -- replace (_base_address p - 1) with (-1) by lia.
           change (ulong (-1)) with (2 ^ 32 - 1).
           apply andb_false_iff. right. apply Z.leb_gt. lia.
      * destruct (Z_lt_le_dec (_base_address p + _size p + 1) (2 ^ 32))
          as [Hin | Hout].
        -- rewrite (ulong_small (_base_address p + _size p + 1)) by lia.
           apply andb_false_iff. right. apply Z.leb_gt. lia.
        -- replace (_base_address p + _size p + 1) with (2 ^ 32) by lia.
           change (ulong (2 ^ 32)) with 0.
           apply andb_false_iff. left. apply Z.leb_gt. lia.
  - intros Hwrap a Ha. unfold is_legitimate.
    assert (Hlast : ulong (_base_address p + _size p)
                    = _base_address p + _size p - 2 ^ 32).
    { unfold ulong. symmetry.
      apply (Z.mod_unique_pos _ _ 1); lia. }
    rewrite Hlast.
    destruct (Z.leb_spec (_base_address p) a); [| reflexivity].
    apply Z.leb_gt. lia.
Qed.

Lemma is_legitimate_inclusive_witness :
  is_legitimate vm_fresh 1073741824 = true /\
  is_legitimate vm_fresh (1073741824 + 12288) = true /\
  is_legitimate vm_fresh (1073741824 - 1) = false /\
  is_legitimate vm_fresh (1073741824 + 12288 + 1) = false.
Proof.
  destruct (is_legitimate_inclusive vm_fresh) as [Hfit _].
  - split; by_eval.
  - split; by_eval.
  - destruct Hfit as (_ & H1 & H2 & Hedge); [by_eval |].
    destruct Hedge as [H3 H4]; [left; by_eval |].
    exact (conj H1 (conj H2 (conj H3 H4))).
Defined.

(** C9, as it is stated, fails.  [vm_top] starts at the last page of the
    address space and has two pages: [_base_address + _size] wraps to 4096
    and [is_legitimate] is false at the pool's own base address.  In
    [vm_whole], the whole address space, the addresses that the code gets
    for [_base_address - 1] and [_base_address + _size + 1] are [2^32 - 1]
    and 0, and [is_legitimate] is true at both. *)
Lemma is_legitimate_wraps :
  _base_address vm_top = 4294963200 /\
  _size vm_top = 8192 /\
  is_legitimate vm_top 4294963200 = false /\
  is_legitimate vm_whole (ulong (_base_address vm_whole - 1)) = true /\
  is_legitimate vm_whole
                (ulong (_base_address vm_whole + _size vm_whole + 1)) = true.
Proof. repeat split; by_eval. Qed.

Lemma ulong_offset_inj b x y :
  0 <= x < 2 ^ 32 -> 0 <= y < 2 ^ 32 ->
  ulong (b + x) = ulong (b + y) -> x = y.
Proof.
  intros Hx Hy H. unfold ulong in H.
  assert (D : (b + x - (b + y)) mod 2 ^ 32 = 0).
  { rewrite Zminus_mod, H, Z.sub_diag. reflexivity. }
  replace (b + x - (b + y)) with (x - y) in D by lia.
  destruct (Z_lt_le_dec x y) as [Hlt | Hge].
  - assert (D' : (y - x) mod 2 ^ 32 = 0).
    { replace (y - x) with (- (x - y)) by lia.
      apply Z_mod_zero_opp_full. exact D. }
    rewrite Z.mod_small in D' by lia. lia.
  - rewrite Z.mod_small in D by lia. lia.
Qed.

(** ** [release] *)

Section Release.

Variable PAGE_SIZE : Z.
Hypothesis PAGE_SIZE_word : 0 < PAGE_SIZE < 2 ^ 32.

Lemma find_region_spec tbl a : forall k indx,
  0 <= indx -> indx + Z.of_nat k < 2 ^ 32 ->
  indx <= find_region k tbl a indx <= indx + Z.of_nat k /\
  (forall j, indx <= j < find_region k tbl a indx ->
             region_base_address (tbl j) <> a) /\
  (find_region k tbl a indx < indx + Z.of_nat k ->
   region_base_address (tbl (find_region k tbl a indx)) = a).
Proof.
  induction k as [| k IH]; intros indx Hi Hk.
  - simpl. repeat split; intros; lia.
  - cbn [find_region].
    destruct (Z.eqb_spec (region_base_address (tbl indx)) a) as [E | E].
    + repeat split; intros; lia.
    + rewrite (ulong_small (indx + 1)) by lia.
      destruct (IH (indx + 1)) as (H1 & H2 & H3); try lia.
      split; [lia |]. split.
      * intros j Hj. destruct (Z.eq_dec j indx) as [-> | Hne];
          [exact E | apply H2; lia].
      * intros Hlt. apply H3. lia.
Qed.

Lemma free_pages_spec d : forall k i,
  0 <= i -> (i + Z.of_nat k) * PAGE_SIZE < 2 ^ 32 ->
  free_pages PAGE_SIZE k i d =
  map (fun x => free_page (ulong (region_base_address d + x * PAGE_SIZE)))
      (map (fun x => i + Z.of_nat x) (seq 0 k)).
Proof.
  induction k as [| k IH]; intros i Hi Hk; [reflexivity |].
  cbn [free_pages seq map].
  rewrite Nat2Z.inj_succ in Hk.
  assert (HK : 0 <= Z.of_nat k) by lia.
  assert (Hsmall : 0 <= i * PAGE_SIZE < 2 ^ 32) by nia.
  assert (Hi32 : 0 <= i + 1 < 2 ^ 32) by nia.
  rewrite (ulong_small (i * PAGE_SIZE)) by exact Hsmall.
  rewrite (ulong_small (i + 1)) by exact Hi32.
  rewrite IH by (try lia; nia).
  rewrite <- seq_shift, !map_map.
  f_equal.
  - do 3 f_equal. lia.
  - apply map_ext. intros x. do 4 f_equal. lia.
Qed.

Lemma shift_down_spec : forall k indx tbl j,
  0 <= indx -> indx + Z.of_nat k < 2 ^ 32 ->
  shift_down k indx tbl j =
  if (indx <=? j) && (j <? indx + Z.of_nat k) then tbl (j + 1) else tbl j.
Proof.
  induction k as [| k IH]; intros indx tbl j Hi Hk.
  - simpl. rewrite Z.add_0_r.
    destruct (Z.leb_spec indx j), (Z.ltb_spec j indx);
      simpl; try reflexivity; lia.
  - cbn [shift_down]. rewrite (ulong_small (indx + 1)) by lia.
    rewrite IH by lia. unfold put_region.
    destruct (Z.leb_spec (indx + 1) j),
             (Z.ltb_spec j (indx + 1 + Z.of_nat k)),
             (Z.leb_spec indx j), (Z.ltb_spec j (indx + Z.of_nat (S k)));
      simpl; try lia;
      repeat match goal with
             | |- context [?x =? ?y] => destruct (Z.eqb_spec x y); try lia
             end;
      try reflexivity; try (f_equal; lia).
Qed.

(** C5: for every pool and every [a] that is the base address of a live
    descriptor, with [indx] the first slot that holds it,
    [release a] calls the page table's [free_page] once for each of the
    [size / PAGE_SIZE] pages of that descriptor, at the addresses
    [base + i * PAGE_SIZE], no address twice, and then calls [load];
    the descriptors after [indx] move one slot down as they are, those
    before it stay, and the region count goes down by one. *)
Theorem release_frees_and_compacts (p : VMPool) (a : Z) :
  vm_in_range p ->
  (exists k, 0 <= k < region_iterator p /\
             region_base_address (allocated_region p k) = a) ->
  exists indx,
    0 <= indx < region_iterator p /\
    region_base_address (allocated_region p indx) = a /\
    (forall j, 0 <= j < indx ->
               region_base_address (allocated_region p j) <> a) /\
    let d := allocated_region p indx in
    let pages :=
      map (fun i => ulong (region_base_address d + i * PAGE_SIZE))
          (indices (region_size d / PAGE_SIZE)) in
    let p' := fst (release PAGE_SIZE p a) in
    snd (release PAGE_SIZE p a) = map free_page pages ++ [load] /\
    NoDup pages /\
    region_iterator p' = region_iterator p - 1 /\
    (forall j, 0 <= j < indx ->
               allocated_region p' j = allocated_region p j) /\
    (forall j, indx <= j < region_iterator p - 1 ->
               allocated_region p' j = allocated_region p (j + 1)) /\
    _base_address p' = _base_address p /\
    _size p' = _size p.
Proof.
  intros (Hb & Hs & Hit & Hlive) (k0 & Hk0 & Hmatch).
  set (tbl := allocated_region p) in *.
  set (it := region_iterator p) in *.
  set (indx := find_region (Z.to_nat it) tbl a 0).
  destruct (find_region_spec tbl a (Z.to_nat it) 0) as (H1 & H2 & H3);
    try lia.
  fold indx in H1, H2, H3. rewrite Z2Nat.id in H1, H3 by lia.
  assert (Hlt : indx < it).
  { destruct (Z_lt_le_dec k0 indx) as [Hlo | Hhi]; [| lia].
    exfalso. apply (H2 k0); [lia | exact Hmatch]. }
  exists indx.
  split; [lia |]. split; [apply H3; lia |]. split; [intros; apply H2; lia |].
  destruct (Hlive indx) as [Hdb Hds]; [lia |]. fold tbl in Hdb, Hds.
  set (d := tbl indx) in *.
  assert (Hq : 0 <= region_size d / PAGE_SIZE <= region_size d).
  { split; [apply Z.div_pos; lia |].
    apply Z.div_le_upper_bound; [lia |]. nia. }
  assert (Hmul : region_size d / PAGE_SIZE * PAGE_SIZE <= region_size d).
  { rewrite Z.mul_comm. apply Z.mul_div_le. lia. }
  cbv zeta. unfold release.
  cbn [fst snd region_iterator allocated_region _base_address _size].
  change (find_region (Z.to_nat (region_iterator p)) (allocated_region p) a 0)
    with indx.
  change (allocated_region p indx) with d.
  rewrite (ulong_small (region_size d / PAGE_SIZE)) by lia.
  split; [| split; [| split; [| split; [| split; [| split]]]]].
  - rewrite free_pages_spec by (rewrite ?Z2Nat.id; lia).
    f_equal. rewrite map_map. unfold indices.
    rewrite !map_map. apply map_ext. intros x. reflexivity.
  - apply NoDup_map_NoDup_ForallPairs; [| apply NoDup_indices].
    intros x y Hx Hy E. apply in_indices in Hx. apply in_indices in Hy.
    assert (x * PAGE_SIZE = y * PAGE_SIZE).
    { apply (ulong_offset_inj (region_base_address d)); [nia | nia | exact E]. }
    nia.
  - apply ulong_small. lia.
  - intros j Hj. rewrite shift_down_spec by (rewrite ?Z2Nat.id; lia).
    destruct (Z.leb_spec indx j); [lia | reflexivity].
  - intros j Hj. rewrite shift_down_spec by (rewrite ?Z2Nat.id; lia).
    rewrite Z2Nat.id by lia.
    replace (indx <=? j) with true by (symmetry; apply Z.leb_le; lia).
    replace (j <? indx + (region_iterator p - indx)) with true
      by (symmetry; apply Z.ltb_lt; fold it; lia).
    reflexivity.
  - reflexivity.
  - reflexivity.
Qed.

End Release.

Lemma vm_two_in_range : vm_in_range vm_two.
Proof.
  unfold vm_in_range.
  split; [split; by_eval |]. split; [split; by_eval |].
  split; [split; by_eval |].
  intros j Hj. change (region_iterator vm_two) with 2 in Hj.
  assert (C : j = 0 \/ j = 1) by lia.
  destruct C as [-> | ->]; split; split; by_eval.
Qed.

Lemma release_frees_and_compacts_witness :
  snd (release 4096 vm_two 1073741824) = [free_page 1073741824; load] /\
  region_iterator (fst (release 4096 vm_two 1073741824)) = 1 /\
  allocated_region (fst (release 4096 vm_two 1073741824)) 0
  = mkRegion (1073741824 + 4096) 4096.
Proof.
  assert (HPS : 0 < 4096 < 2 ^ 32) by (split; by_eval).
  destruct (release_frees_and_compacts 4096 HPS vm_two 1073741824)
    as (indx & Hi & Hbase & Hfirst & H).
  - exact vm_two_in_range.
  - exists 0. split; [split; by_eval | by_eval].
  - assert (indx = 0) as ->.
    { destruct (Z.eq_dec indx 0) as [E | E]; [exact E |].
      exfalso. apply (Hfirst 0); [lia | by_eval]. }
    cbv zeta in H. destruct H as (Hcalls & _ & Hit & _ & Hshift & _).
    split; [rewrite Hcalls; by_eval |].
    split; [rewrite Hit; by_eval |].
    rewrite Hshift by (change (region_iterator vm_two) with 2; lia).
    by_eval.
Defined.

(** ** [allocate] *)

Section Allocate.

Variable PAGE_SIZE : Z.
Variable MAX_VM_REGIONS : Z.
Hypothesis PAGE_SIZE_word : 0 < PAGE_SIZE < 2 ^ 32.
Hypothesis MAX_VM_REGIONS_word : MAX_VM_REGIONS < 2 ^ 32.

Local Abbreviation round_up := (round_up_pages PAGE_SIZE).
Local Abbreviation packed := (packed_regions PAGE_SIZE).
Local Abbreviation total := (total_rounded PAGE_SIZE).

Lemma round_up_pages_spec s :
  round_up s mod PAGE_SIZE = 0 /\ s <= round_up s < s + PAGE_SIZE.
Proof.
  unfold round_up_pages. split.
  - apply Z.mod_mul. lia.
  - pose proof (Z.mul_div_le (s + PAGE_SIZE - 1) PAGE_SIZE) as Hle.
    pose proof (Z.mul_succ_div_gt (s + PAGE_SIZE - 1) PAGE_SIZE) as Hgt.
    lia.
Qed.

(** The page count of the code is the ceiling of [s / PAGE_SIZE]. *)
Lemma pages_needed_ceiling s :
  s / PAGE_SIZE + (if 0 <? s mod PAGE_SIZE then 1 else 0)
  = (s + PAGE_SIZE - 1) / PAGE_SIZE.
Proof.
  pose proof (Z.div_mod s PAGE_SIZE) as Hs.
  pose proof (Z.mod_pos_bound s PAGE_SIZE) as Hr.
  destruct (Z.ltb_spec 0 (s mod PAGE_SIZE)) as [Hpos | Hzero].
  - apply (Z.div_unique_pos _ _ _ (s mod PAGE_SIZE - 1)); lia.
  - apply (Z.div_unique_pos _ _ _ (PAGE_SIZE - 1)); lia.
Qed.

Lemma allocate_once p s :
  0 <= region_iterator p < MAX_VM_REGIONS ->
  0 < s < 2 ^ 32 ->
  0 <= next_region_base p ->
  next_region_base p + round_up s < 2 ^ 32 ->
  allocate PAGE_SIZE MAX_VM_REGIONS p s =
  Ret (mkVMPool (_base_address p) (_size p) (region_iterator p + 1)
                (put_region (allocated_region p) (region_iterator p)
                            (mkRegion (next_region_base p) (round_up s))),
       next_region_base p).
Proof.
  intros Hit Hs Hnext Hfit.
  destruct (round_up_pages_spec s) as [_ Hround].
  assert (Hpages : 0 <= (s + PAGE_SIZE - 1) / PAGE_SIZE < 2 ^ 32).
  { split; [apply Z.div_pos; lia |].
    unfold round_up_pages in Hfit, Hround. nia. }
  assert (Hquot : 0 <= s / PAGE_SIZE < 2 ^ 32).
  { split; [apply Z.div_pos; lia |].
    apply Z.div_lt_upper_bound; [lia | nia]. }
  unfold allocate.
  destruct (Z.eqb_spec s 0); [lia |].
  destruct (Z.eqb_spec (region_iterator p) MAX_VM_REGIONS); [lia |].
  rewrite (ulong_small (s / PAGE_SIZE)) by exact Hquot.
  assert (Hn : (if 0 <? s mod PAGE_SIZE
                then ulong (s / PAGE_SIZE + 1) else s / PAGE_SIZE)
               = (s + PAGE_SIZE - 1) / PAGE_SIZE).
  { rewrite <- pages_needed_ceiling.
    destruct (0 <? s mod PAGE_SIZE) eqn:E.
    - apply ulong_small. rewrite <- pages_needed_ceiling, E in Hpages. lia.
    - lia. }
  rewrite Hn.
  assert (Hfinal : ulong ((s + PAGE_SIZE - 1) / PAGE_SIZE * PAGE_SIZE)
                   = round_up s).
  { apply ulong_small. unfold round_up_pages in *. lia. }
  rewrite Hfinal.
  rewrite (ulong_small (region_iterator p + 1)) by lia.
  replace (region_iterator p + 1 - 1) with (region_iterator p) by lia.
  rewrite (ulong_small (region_iterator p)) by lia.
  assert (Hbase : (if region_iterator p =? 0 then _base_address p
                   else ulong
                          (region_base_address
                             (allocated_region p (ulong (region_iterator p - 1)))
                           + region_size
                               (allocated_region p (ulong (region_iterator p - 1)))))
                  = next_region_base p).
  { unfold next_region_base in *.
    destruct (Z.eqb_spec (region_iterator p) 0); [reflexivity |].
    rewrite (ulong_small (region_iterator p - 1)) by lia.
    apply ulong_small. cbv zeta in Hnext. lia. }
  rewrite Hbase.
  unfold put_region at 2. rewrite Z.eqb_refl. reflexivity.
Qed.

Lemma recorded_cons p from n :
  recorded p from (S n)
  = allocated_region p from :: recorded p (from + 1) n.
Proof.
  unfold recorded. cbn [seq map]. f_equal.
  - f_equal. lia.
  - rewrite <- seq_shift, map_map. apply map_ext.
    intros i. f_equal. lia.
Qed.

Lemma recorded_ext p q from n :
  (forall j, from <= j -> allocated_region p j = allocated_region q j) ->
  recorded p from n = recorded q from n.
Proof.
  intros H. unfold recorded. apply map_ext. intros i. apply H. lia.
Qed.

Lemma total_nonneg sizes : Forall (fun s => 0 < s < 2 ^ 32) sizes ->
                           0 <= total sizes.
Proof.
  induction 1 as [| s rest Hs _ IH]; simpl; [lia |].
  destruct (round_up_pages_spec s). lia.
Qed.

(** Successive calls pack their regions behind each other. *)
Lemma allocate_all_spec : forall sizes p,
  0 <= region_iterator p ->
  region_iterator p + Z.of_nat (length sizes) <= MAX_VM_REGIONS ->
  Forall (fun s => 0 < s < 2 ^ 32) sizes ->
  0 <= next_region_base p ->
  next_region_base p + total sizes < 2 ^ 32 ->
  exists p',
    allocate_all PAGE_SIZE MAX_VM_REGIONS p sizes
    = Ret (p', map region_base_address (packed (next_region_base p) sizes)) /\
    region_iterator p' = region_iterator p + Z.of_nat (length sizes) /\
    (forall j, j < region_iterator p ->
               allocated_region p' j = allocated_region p j) /\
    recorded p' (region_iterator p) (length sizes)
    = packed (next_region_base p) sizes /\
    _base_address p' = _base_address p /\ _size p' = _size p.
Proof.
  induction sizes as [| s rest IH]; intros p Hit Hcap Hsizes Hnext Hfit.
  - exists p. simpl. repeat split; try reflexivity. lia.
  - inversion Hsizes as [| ? ? Hs Hrest]; subst.
    cbn [length] in Hcap. rewrite Nat2Z.inj_succ in Hcap.
    cbn [total_rounded fold_right] in Hfit.
    fold (total rest) in Hfit.
    pose proof (total_nonneg rest Hrest) as Htot.
    destruct (round_up_pages_spec s) as [_ Hround].
    set (p1 := mkVMPool (_base_address p) (_size p) (region_iterator p + 1)
                 (put_region (allocated_region p) (region_iterator p)
                    (mkRegion (next_region_base p) (round_up s)))).
    assert (Hnext1 : next_region_base p1 = next_region_base p + round_up s).
    { unfold next_region_base at 1. simpl.
      destruct (Z.eqb_spec (region_iterator p + 1) 0); [lia |].
      replace (region_iterator p + 1 - 1) with (region_iterator p) by lia.
      unfold put_region. rewrite Z.eqb_refl. reflexivity. }
    destruct (IH p1) as (p' & Hall & Hit' & Hframe & Hrec & Hb & Hsz).
    + simpl. lia.
    + simpl. lia.
    + exact Hrest.
    + rewrite Hnext1. lia.
    + rewrite Hnext1. lia.
    + exists p'. cbn [allocate_all].
      rewrite allocate_once by lia.
      fold p1. rewrite Hall, Hnext1.
      split; [reflexivity |].
      split; [rewrite Hit'; simpl; lia |].
      split.
      { intros j Hj. rewrite Hframe by (simpl; lia).
        simpl. unfold put_region.
        destruct (Z.eqb_spec j (region_iterator p)); [lia | reflexivity]. }
      split.
      { cbn [length]. rewrite recorded_cons.
        cbn [packed_regions]. f_equal.
        - rewrite Hframe by (simpl; lia).
          simpl. unfold put_region. rewrite Z.eqb_refl. reflexivity.
        - rewrite <- Hnext1. exact Hrec. }
      split; [rewrite Hb | rewrite Hsz]; reflexivity.
Qed.

(** *** Packed regions are aligned, ascending and disjoint *)

Lemma packed_lower : forall sizes a,
  Forall (fun s => 0 < s < 2 ^ 32) sizes ->
  Forall (fun r => a <= region_base_address r) (packed a sizes).
Proof.
  induction sizes as [| s rest IH]; intros a Hsizes; [constructor |].
  inversion Hsizes as [| ? ? Hs Hrest]; subst.
  destruct (round_up_pages_spec s) as [_ Hround].
  cbn [packed_regions]. constructor; [simpl; lia |].
  apply (Forall_impl _ (P := fun r => a + round_up s <= region_base_address r)).
  - intros r Hr. lia.
  - apply IH. exact Hrest.
Qed.

Lemma packed_before : forall sizes a,
  Forall (fun s => 0 < s < 2 ^ 32) sizes ->
  StronglySorted region_before (packed a sizes).
Proof.
  induction sizes as [| s rest IH]; intros a Hsizes; [constructor |].
  inversion Hsizes as [| ? ? Hs Hrest]; subst.
  cbn [packed_regions]. constructor; [apply IH; exact Hrest |].
  unfold region_before. simpl. apply packed_lower. exact Hrest.
Qed.

Lemma packed_increasing : forall sizes a,
  Forall (fun s => 0 < s < 2 ^ 32) sizes ->
  StronglySorted Z.lt (map region_base_address (packed a sizes)).
Proof.
  induction sizes as [| s rest IH]; intros a Hsizes; [constructor |].
  inversion Hsizes as [| ? ? Hs Hrest]; subst.
  destruct (round_up_pages_spec s) as [_ Hround].
  cbn [packed_regions map]. constructor; [apply IH; exact Hrest |].
  simpl. apply Forall_map.
  apply (Forall_impl _ (P := fun r => a + round_up s <= region_base_address r)).
  - intros r Hr. lia.
  - apply packed_lower. exact Hrest.
Qed.

Lemma packed_aligned : forall sizes a,
  a mod PAGE_SIZE = 0 ->
  Forall (fun r => region_base_address r mod PAGE_SIZE = 0) (packed a sizes).
Proof.
  induction sizes as [| s rest IH]; intros a Ha; [constructor |].
  destruct (round_up_pages_spec s) as [Hmod _].
  cbn [packed_regions]. constructor; [exact Ha |].
  apply IH. rewrite Z.add_mod by lia. rewrite Ha, Hmod. reflexivity.
Qed.

Lemma packed_rounded : forall sizes a,
  Forall2 (fun s r => region_size r = round_up s) sizes (packed a sizes).
Proof.
  induction sizes as [| s rest IH]; intros a; cbn [packed_regions];
    constructor; [reflexivity | apply IH].
Qed.

Lemma packed_congruent : forall sizes a,
  Forall (fun r => region_base_address r mod PAGE_SIZE = a mod PAGE_SIZE)
         (packed a sizes).
Proof.
  induction sizes as [| s rest IH]; intros a; [constructor |].
  destruct (round_up_pages_spec s) as [Hmod _].
  cbn [packed_regions]. constructor; [reflexivity |].
  apply (Forall_impl _ (P := fun r => region_base_address r mod PAGE_SIZE
                                      = (a + round_up s) mod PAGE_SIZE)).
  - intros r Hr. rewrite Hr.
    rewrite Z.add_mod by lia. rewrite Hmod, Z.add_0_r.
    apply Z.mod_mod. lia.
  - apply IH.
Qed.

(** One call of [allocate] in 32-bit arithmetic, nothing assumed about the
    sums: the page count is exact, the size and the base are the 32-bit
    values of the rounded size and of the next region base. *)
Lemma allocate_word p s :
  0 <= region_iterator p < MAX_VM_REGIONS ->
  0 < s < 2 ^ 32 ->
  0 <= _base_address p < 2 ^ 32 ->
  allocate PAGE_SIZE MAX_VM_REGIONS p s =
  Ret (mkVMPool (_base_address p) (_size p) (region_iterator p + 1)
                (put_region (allocated_region p) (region_iterator p)
                            (mkRegion (ulong (next_region_base p))
                                      (ulong (round_up s)))),
       ulong (next_region_base p)).
Proof.
  intros Hit Hs Hb.
  assert (Hquot : 0 <= s / PAGE_SIZE < 2 ^ 32).
  { split; [apply Z.div_pos; lia |].
    apply Z.div_lt_upper_bound; [lia | nia]. }
  unfold allocate.
  destruct (Z.eqb_spec s 0); [lia |].
  destruct (Z.eqb_spec (region_iterator p) MAX_VM_REGIONS); [lia |].
  rewrite (ulong_small (s / PAGE_SIZE)) by exact Hquot.
  assert (Hn : (if 0 <? s mod PAGE_SIZE
                then ulong (s / PAGE_SIZE + 1) else s / PAGE_SIZE)
               = (s + PAGE_SIZE - 1) / PAGE_SIZE).
  { rewrite <- pages_needed_ceiling.
    destruct (Z.ltb_spec 0 (s mod PAGE_SIZE)) as [Hrem | Hrem]; [| lia].
    apply ulong_small.
    pose proof (Z.mod_pos_bound s PAGE_SIZE) as Hr.
    assert (Hhalf : s / PAGE_SIZE < 2 ^ 31).
    { apply Z.div_lt_upper_bound; [lia | nia]. }
    lia. }
  rewrite Hn.
  rewrite (ulong_small (region_iterator p + 1)) by lia.
  replace (region_iterator p + 1 - 1) with (region_iterator p) by lia.
  rewrite (ulong_small (region_iterator p)) by lia.
  assert (Hbase : (if region_iterator p =? 0 then _base_address p
                   else ulong
                          (region_base_address
                             (allocated_region p (ulong (region_iterator p - 1)))
                           + region_size
                               (allocated_region p (ulong (region_iterator p - 1)))))
                  = ulong (next_region_base p)).
  { unfold next_region_base.
    destruct (Z.eqb_spec (region_iterator p) 0);
      [symmetry; apply ulong_small; exact Hb |].
    rewrite (ulong_small (region_iterator p - 1)) by lia.
    reflexivity. }
  rewrite Hbase.
  unfold put_region at 2. rewrite Z.eqb_refl. reflexivity.
Qed.

(** C4 (as amended).  [allocate 0] is fatal for every pool.  For a request
    [s > 0] and a table below capacity, [allocate s] computes the exact
    number of pages, records in the next free slot the region whose size is
    the rounded size and whose base is the next region base
    ([base_address] with an empty table, the base plus the size of the last
    region otherwise), both as 32-bit values, adds one to the region count
    and returns the base it recorded; when the rounded size and the next
    region base are below [2^32] these are the rounded size and the next
    region base themselves.  Successive calls, no [release] between them,
    whose packed regions end below [2^32] return the bases of the packed
    regions in turn: they are strictly increasing, each region ends where
    the next starts or before, and every address returned has the
    remainder modulo the page size that the first has, so that the
    addresses are page-aligned when the pool's next region base is. *)
Theorem allocate_packs_regions (p : VMPool) :
  (forall s,
      0 <= region_iterator p < MAX_VM_REGIONS ->
      0 < s < 2 ^ 32 ->
      0 <= _base_address p < 2 ^ 32 ->
      round_up s mod PAGE_SIZE = 0 /\ s <= round_up s < s + PAGE_SIZE /\
      allocate PAGE_SIZE MAX_VM_REGIONS p s =
      Ret (mkVMPool (_base_address p) (_size p) (region_iterator p + 1)
                    (put_region (allocated_region p) (region_iterator p)
                                (mkRegion (ulong (next_region_base p))
                                          (ulong (round_up s)))),
           ulong (next_region_base p)) /\
      (round_up s < 2 ^ 32 -> 0 <= next_region_base p < 2 ^ 32 ->
       allocate PAGE_SIZE MAX_VM_REGIONS p s =
       Ret (mkVMPool (_base_address p) (_size p) (region_iterator p + 1)
                     (put_region (allocated_region p) (region_iterator p)
                                 (mkRegion (next_region_base p) (round_up s))),
            next_region_base p))) /\
  (forall sizes,
      0 <= region_iterator p ->
      0 <= next_region_base p ->
      Forall (fun s => 0 < s < 2 ^ 32) sizes ->
      region_iterator p + Z.of_nat (length sizes) <= MAX_VM_REGIONS ->
      next_region_base p + total sizes < 2 ^ 32 ->
      exists p',
        let regs := packed (next_region_base p) sizes in
        allocate_all PAGE_SIZE MAX_VM_REGIONS p sizes
        = Ret (p', map region_base_address regs) /\
        region_iterator p' = region_iterator p + Z.of_nat (length sizes) /\
        recorded p' (region_iterator p) (length sizes) = regs /\
        Forall2 (fun s r => region_size r = round_up s) sizes regs /\
        StronglySorted Z.lt (map region_base_address regs) /\
        StronglySorted region_before regs /\
        Forall (fun a => a mod PAGE_SIZE = next_region_base p mod PAGE_SIZE)
               (map region_base_address regs) /\
        (next_region_base p mod PAGE_SIZE = 0 ->
         Forall (fun a => a mod PAGE_SIZE = 0)
                (map region_base_address regs))) /\
  allocate PAGE_SIZE MAX_VM_REGIONS p 0 = Fatal.
Proof.
  split; [| split].
  - intros s Hit Hs Hb.
    destruct (round_up_pages_spec s) as [Hmod Hround].
    split; [exact Hmod |]. split; [exact Hround |].
    split; [apply allocate_word; assumption |].
    intros Hfit Hnext. rewrite allocate_word by assumption.
    rewrite (ulong_small (next_region_base p)) by exact Hnext.
    rewrite (ulong_small (round_up s)) by lia.
    reflexivity.
  - intros sizes Hit Hnext Hsizes Hcap Hfit.
    destruct (allocate_all_spec sizes p Hit Hcap Hsizes Hnext Hfit)
      as (p' & Hall & Hit' & _ & Hrec & _).
    exists p'. cbv zeta.
    split; [exact Hall |]. split; [exact Hit' |]. split; [exact Hrec |].
    split; [apply packed_rounded |].
    split; [apply packed_increasing; exact Hsizes |].
    split; [apply packed_before; exact Hsizes |].
    split; [apply Forall_map; apply packed_congruent |].
    intros Halign. apply Forall_map. apply packed_aligned. exact Halign.
  - reflexivity.
Qed.

End Allocate.

Lemma allocate_packs_regions_witness :
  (exists p',
      allocate_all 4096 16 vm_fresh [1; 5000]
      = Ret (p', [1073741824; 1073745920])) /\
  (exists p', allocate 4096 16 vm_fresh 5000 = Ret (p', 1073741824)) /\
  allocate 4096 16 vm_fresh 0 = Fatal.
Proof.
  assert (HPS : 0 < 4096 < 2 ^ 32) by (split; by_eval).
  assert (HMAX : 16 < 2 ^ 32) by by_eval.
  destruct (allocate_packs_regions 4096 16 HPS HMAX vm_fresh)
    as (Hone & Hmany & Hzero).
  split; [| split; [| exact Hzero]].
  - destruct (Hmany [1; 5000]) as (p' & Hall & _).
    + by_eval.
    + by_eval.
    + repeat constructor; by_eval.
    + by_eval.
    + by_eval.
    + exists p'. exact Hall.
  - destruct (Hone 5000) as (_ & _ & _ & Hal).
    + split; by_eval.
    + split; by_eval.
    + split; by_eval.
    + eexists. apply Hal; [by_eval | split; by_eval].
Defined.

(** C4, as it is stated, fails.  Nothing aligns a pool's base address: the
    first region of a pool that starts at address 100 is at 100.  The sums
    are taken in 32 bits: in [vm_top], whose two pages start at the last
    page of the address space, the second of two regions of one page is at
    address 0, below the first; and a request of [2^32 - 1] bytes is
    rounded to [2^32], which is recorded as a region of size 0. *)
Lemma allocate_unaligned_or_wrapped :
  (exists q,
      allocate 4096 16 vm_unaligned 4096 = Ret (q, 100) /\
      100 mod 4096 <> 0) /\
  (exists q,
      allocate_all 4096 16 vm_top [4096; 4096] = Ret (q, [4294963200; 0]) /\
      recorded q 0 2 = [mkRegion 4294963200 4096; mkRegion 0 4096]) /\
  (exists q,
      allocate 4096 16 vm_fresh 4294967295 = Ret (q, 1073741824) /\
      allocated_region q 0 = mkRegion 1073741824 0).
Proof.
  split; [| split].
  - eexists. split; [reflexivity | by_eval].
  - eexists. split; reflexivity.
  - eexists. split; reflexivity.
Qed.

(** * Further properties of the frame pool *)

(** ** The bitmap *)

(** X1: reading a frame's state after [set_state] gives the state written
    when it is the frame written, and what was there before for every other
    frame. *)
Theorem set_state_then_get_state (bm : memory) (f g : Z) (st : FrameState) :
  get_state (set_state bm f st) g = if g =? f then st else get_state bm g.
Proof.
  destruct (Z.eqb_spec g f) as [-> | Hne];
    [apply get_set_same | apply get_set_other; exact Hne].
Qed.

Lemma check_code_ok : check_code = true.
Proof. vm_compute. reflexivity. Qed.

Lemma byte_fields b f g st :
  0 <= b < 256 ->
  field_of_byte (write_bits b (2 * (f mod 4)) st) (2 * (g mod 4))
  = (if 2 * (g mod 4) =? 2 * (f mod 4) then state_code st
     else field_of_byte b (2 * (g mod 4))) /\
  read_bits b (2 * (f mod 4)) = state_of_code (field_of_byte b (2 * (f mod 4))).
Proof.
  intros Hb.
  pose proof check_code_ok as H. unfold check_code in H.
  rewrite forallb_forall in H. specialize (H b (in_all_bytes b Hb)).
  rewrite forallb_forall in H. specialize (H _ (in_all_positions f)).
  rewrite forallb_forall in H. specialize (H _ (in_all_positions g)).
  rewrite forallb_forall in H. specialize (H st (in_all_states st)).
  apply andb_true_iff in H. destruct H as [H1 H2].
  apply Z.eqb_eq in H1.
  split; [exact H1 |].
  destruct (FrameState_eqb_spec
              (read_bits b (2 * (f mod 4)))
              (state_of_code (field_of_byte b (2 * (f mod 4)))));
    [assumption | discriminate].
Qed.

(** X2: [set_state] stores the bits 00 for [Free], 11 for [Used] and 10 for
    [HoS] in the two bits of its frame, never 01, and leaves the two bits of
    every other frame as they are; [get_state] reads 00 as [Free], 11 as
    [Used] and both 10 and 01 as [HoS]. *)
Theorem set_state_stores_code (bm : memory) (f g : Z) (st : FrameState) :
  frame_field (set_state bm f st) g
  = (if g =? f then state_code st else frame_field bm g) /\
  get_state bm f = state_of_code (frame_field bm f).
Proof.
  split.
  - unfold frame_field, set_state.
    destruct (Z.eq_dec (g / 4) (f / 4)) as [E | E].
    + rewrite E, load_store_same.
      rewrite uchar_small by apply write_bits_range.
      destruct (byte_fields (load_byte bm (f / 4)) f g st) as [H _];
        [apply uchar_range |].
      rewrite H.
      destruct (Z.eqb_spec g f) as [-> | Hne].
      * rewrite Z.eqb_refl. reflexivity.
      * destruct (Z.eqb_spec (2 * (g mod 4)) (2 * (f mod 4))) as [Hm | _];
          [| reflexivity].
        exfalso. apply Hne.
        rewrite (Z.div_mod g 4), (Z.div_mod f 4) by discriminate. lia.
    + rewrite load_store_other by exact E.
      destruct (Z.eqb_spec g f) as [-> | _]; [contradiction | reflexivity].
  - unfold get_state, frame_field.
    destruct (byte_fields (load_byte bm (f / 4)) f f Free) as [_ H];
      [apply uchar_range | exact H].
Qed.

(** ** Construction *)

(** X3: [needed_info_frames n] is the number of bitmap frames that [n]
    frames need at [8 * FRAME_SIZE / 2] frames for each: the least [k] with
    [n <= k * (4 * FRAME_SIZE)]; it is 0 for no frame. *)
Theorem needed_info_frames_ceiling (FRAME_SIZE n : Z) :
  0 < FRAME_SIZE -> 8 * FRAME_SIZE < 2 ^ 32 -> 0 <= n < 2 ^ 32 ->
  (needed_info_frames FRAME_SIZE n - 1) * (4 * FRAME_SIZE) < n
  <= needed_info_frames FRAME_SIZE n * (4 * FRAME_SIZE).
Proof.
  intros Hpos Hword Hn. unfold needed_info_frames.
  rewrite (ulong_small (8 * FRAME_SIZE)) by lia.
  replace (8 * FRAME_SIZE / 2) with (4 * FRAME_SIZE)
    by (replace (8 * FRAME_SIZE) with (4 * FRAME_SIZE * 2) by lia;
        symmetry; apply Z.div_mul; discriminate).
  pose proof (Z.div_mod n (4 * FRAME_SIZE)) as Hdm.
  pose proof (Z.mod_pos_bound n (4 * FRAME_SIZE)) as Hr.
  assert (Hq : 0 <= n / (4 * FRAME_SIZE) <= n).
  { split; [apply Z.div_pos; lia |].
    apply Z.div_le_upper_bound; [lia | nia]. }
  destruct (Z.ltb_spec 0 (n mod (4 * FRAME_SIZE))) as [Hrem | Hrem].
  - assert (Hq1 : n / (4 * FRAME_SIZE) + 1 < 2 ^ 32) by nia.
    rewrite ulong_small by lia. nia.
  - rewrite ulong_small by lia. nia.
Qed.

Lemma needed_info_frames_ceiling_witness :
  (needed_info_frames 4096 16385 - 1) * (4 * 4096) < 16385
  <= needed_info_frames 4096 16385 * (4 * 4096).
Proof.
  apply (needed_info_frames_ceiling 4096 16385).
  - by_eval.
  - by_eval.
  - split; by_eval.
Defined.

Lemma construct_free_count_witness :
  pool_in_range pool8 /\ free_count_ok pool8 /\
  (forall j, 1 <= j < 8 -> get_state (bitmap pool8) j = Free).
Proof.
  apply (construct_free_count 4096 zero_memory [] [pool8] 16 8 0 pool8).
  - split; by_eval.
  - split; by_eval.
  - intros _. by_eval.
  - reflexivity.
Defined.

(** X5: a pool with no frame and its bitmap in its own first frame is
    built without complaint: its free count wraps to [2^32 - 1], the bitmap
    entry 0 is written [Used] though the pool has no frame, and every
    [get_frames] passes the assertion on the free count and returns 0. *)
Theorem construct_empty_self_hosted
        (FRAME_SIZE : Z) (phys : memory) (reg : registry) (b : Z) :
  exists p,
    construct FRAME_SIZE phys reg b 0 0 = Ret (p, reg ++ [p]) /\
    n_frames p = 0 /\
    n_free_frames p = 2 ^ 32 - 1 /\
    get_state (bitmap p) 0 = Used /\
    forall n, get_frames p n = Ret (p, 0).
Proof.
  unfold construct.
  pose proof (ulong_range (FRAME_SIZE * 8)) as Hu.
  destruct (Z.leb_spec 0 (ulong (FRAME_SIZE * 8))); [| lia].
  cbn [negb Z.eqb Z.to_nat init_free]. eexists.
  split; [reflexivity |]. split; [reflexivity |].
  split; [reflexivity |]. split; [apply get_set_same |].
  intros n. reflexivity.
Qed.

Lemma find_pool_app reg p f :
  find_pool (reg ++ [p]) f =
  match find_pool reg f with
  | Some r => Some r
  | None => if in_pool_range p f then Some (length reg, p) else None
  end.
Proof.
  induction reg as [| p0 rest IH]; simpl.
  - destruct (in_pool_range p f); reflexivity.
  - destruct (in_pool_range p0 f); [reflexivity |].
    rewrite IH. destruct (find_pool rest f) as [[k q] |]; [reflexivity |].
    destruct (in_pool_range p f); reflexivity.
Qed.

(** X6: the constructor puts the new pool behind the pools that are
    registered already.  The lookup of [release_frames] stops at the same
    position of the list as before for a frame number that an earlier pool
    has, also when the range of the new pool contains it; it stops at the
    new, last position for the frame numbers of the new pool's range that
    no earlier pool has, and finds no pool for the others. *)
Theorem construct_registers_last
        (FRAME_SIZE : Z) (phys : memory) (reg reg' : registry)
        (b n info : Z) (p : ContFramePool) (f : Z) :
  construct FRAME_SIZE phys reg b n info = Ret (p, reg') ->
  length reg' = S (length reg) /\
  option_map fst (find_pool reg' f) =
  match option_map fst (find_pool reg f) with
  | Some k => Some k
  | None =>
      if (b <=? f) && (f <? ulong (b + n)) then Some (length reg) else None
  end.
Proof.
  intros H.
  destruct (construct_accepts FRAME_SIZE phys reg b n info)
    as (p0 & Hp0 & Hb & Hn & _).
  { destruct (Z_le_gt_dec n (ulong (FRAME_SIZE * 8))) as [Hle | Hgt];
      [exact Hle |].
    exfalso.
    assert (Hf : construct FRAME_SIZE phys reg b n info = Fatal)
      by (apply construct_fatal_iff; lia).
    rewrite Hf in H. discriminate. }
  rewrite Hp0 in H. inversion H; subst p0 reg'. clear H.
  split.
  - rewrite length_app. simpl. lia.
  - rewrite find_pool_app. unfold in_pool_range. rewrite Hb, Hn.
    destruct (find_pool reg f) as [[k q] |]; [reflexivity |].
    simpl. destruct ((b <=? f) && (f <? ulong (b + n))); reflexivity.
Qed.

Lemma construct_registers_last_witness :
  option_map fst (find_pool ([pool8] ++ [pool_overlap]) 21) = Some 0%nat /\
  option_map fst (find_pool ([pool8] ++ [pool_overlap]) 25) = Some 1%nat.
Proof.
  assert (H : construct 4096 zero_memory [pool8] 20 8 1
              = Ret (pool_overlap, [pool8] ++ [pool_overlap]))
    by reflexivity.
  split.
  - rewrite (proj2 (construct_registers_last _ _ _ _ _ _ _ _ 21 H)). by_eval.
  - rewrite (proj2 (construct_registers_last _ _ _ _ _ _ _ _ 25 H)). by_eval.
Defined.

(** ** [get_frames] *)

(** What a [get_frames] that had a run to find has done. *)
Lemma get_frames_result p n q f :
  pool_in_range p -> 1 <= n -> has_free_run p n ->
  get_frames p n = Ret (q, f) ->
  exists s,
    0 <= s /\ s + n <= n_frames p /\
    f = ulong (s + base_frame_no p) /\
    run_free (bitmap p) s n /\
    (forall s', 0 <= s' < s -> ~ run_free (bitmap p) s' n) /\
    get_state (bitmap q) s = HoS /\
    (forall j, s < j < s + n -> get_state (bitmap q) j = Used) /\
    (forall j, ~ (s <= j < s + n) ->
               get_state (bitmap q) j = get_state (bitmap p) j) /\
    n_free_frames q = ulong (n_free_frames p - n) /\
    same_range p q.
Proof.
  intros Hr Hn Hrun0 Hget.
  pose proof Hr as (Hb & HN & Hf).
  assert (Hpos : 0 < n_free_frames p).
  { unfold get_frames in Hget.
    destruct (Z.ltb_spec 0 (n_free_frames p)); [assumption | discriminate]. }
  assert (Hn32 : 1 <= n < 2 ^ 32).
  { destruct Hrun0 as (s0 & ? & ? & _). lia. }
  destruct (scan_finds_run p n Hr Hn32 Hrun0)
    as (e & E & Hs & Hhi & Hfree & Hlow).
  rewrite (get_frames_found p n e) in Hget by assumption.
  inversion Hget as [[Hq Hfeq]]. clear Hget.
  pose proof (marked_run_spec p (e - n + 1) n) as Hmark. cbv zeta in Hmark.
  destruct Hmark as (Hhead & Hused & Hother & Hcnt & Hbase & Hnf & Hinfo);
    try lia.
  exists (e - n + 1).
  split; [exact Hs |]. split; [lia |]. split; [reflexivity |].
  split; [exact Hfree |]. split; [exact Hlow |].
  split; [exact Hhead |]. split; [exact Hused |]. split; [exact Hother |].
  split; [exact Hcnt |]. unfold same_range. auto.
Qed.

Lemma get_frames_keeps_free_count_witness :
  pool_in_range pool8_taken /\ free_count_ok pool8_taken.
Proof.
  apply (get_frames_keeps_free_count pool8 pool8_taken 3 17).
  - in_range_eval.
  - by_eval.
  - split; by_eval.
  - reflexivity.
Defined.

(** The search for a run of no frame stops at the first entry that is not
    [Free]. *)
Lemma scan_zero_stops bm : forall d fuel i c,
  0 <= c -> c + Z.of_nat d < 2 ^ 32 ->
  0 <= i -> i + Z.of_nat d < 2 ^ 32 ->
  run_free bm i (Z.of_nat d) ->
  get_state bm (i + Z.of_nat d) <> Free ->
  scan (S d + fuel) bm 0 i c = Some (i + Z.of_nat d).
Proof.
  induction d as [| d IH]; intros fuel i c Hc Hcd Hi Hid Hrun Hstop.
  - cbn [scan Nat.add]. rewrite Z.add_0_r in *.
    destruct (FrameState_eqb_spec (get_state bm i) Free); [contradiction |].
    reflexivity.
  - rewrite Nat2Z.inj_succ in *. cbn [scan Nat.add].
    rewrite (Hrun i) by lia. cbn [FrameState_eqb].
    rewrite (ulong_small (c + 1)), (ulong_small (i + 1)) by lia.
    destruct (Z.eqb_spec (c + 1) 0); [lia |].
    replace (i + Z.succ (Z.of_nat d)) with (i + 1 + Z.of_nat d) in * by lia.
    apply IH; try lia.
    + intros j Hj. apply Hrun. lia.
    + exact Hstop.
Qed.

Lemma scan_zero_all_free bm : forall d i c,
  0 <= c -> c + Z.of_nat d < 2 ^ 32 ->
  0 <= i -> i + Z.of_nat d < 2 ^ 32 ->
  run_free bm i (Z.of_nat d) ->
  scan d bm 0 i c = None.
Proof.
  induction d as [| d IH]; intros i c Hc Hcd Hi Hid Hrun; [reflexivity |].
  rewrite Nat2Z.inj_succ in *. cbn [scan].
  rewrite (Hrun i) by lia. cbn [FrameState_eqb].
  rewrite (ulong_small (c + 1)), (ulong_small (i + 1)) by lia.
  destruct (Z.eqb_spec (c + 1) 0); [lia |].
  apply IH; try lia. intros j Hj. apply Hrun. lia.
Qed.

(** X8: [get_frames(0)] is not refused.  When the entries before index [k]
    are [Free] and entry [k] is not, the search stops at [k]: entry [k + 1]
    is written [HoS] whatever its state was, the free count goes down by
    one and the frame number of entry [k + 1] is returned.  When every
    frame of the pool is [Free] nothing is found: the pool is unchanged
    and 0 is returned. *)
Theorem get_frames_zero (p : ContFramePool) :
  pool_in_range p -> 0 < n_free_frames p ->
  (forall k,
      0 <= k < n_frames p -> k + 2 < 2 ^ 32 ->
      run_free (bitmap p) 0 k ->
      get_state (bitmap p) k <> Free ->
      get_frames p 0
      = Ret (take_frame p (k + 1) HoS, ulong (k + 1 + base_frame_no p))) /\
  (run_free (bitmap p) 0 (n_frames p) -> get_frames p 0 = Ret (p, 0)).
Proof.
  intros (Hb & HN & Hf) Hpos. split.
  - intros k Hk Hk2 Hrun Hstop. unfold get_frames.
    destruct (Z.ltb_spec 0 (n_free_frames p)); [| lia]. cbn [negb].
    replace (Z.to_nat (n_frames p))
      with (S (Z.to_nat k) + Z.to_nat (n_frames p - k - 1))%nat by lia.
    rewrite (scan_zero_stops (bitmap p) (Z.to_nat k)); rewrite ?Z2Nat.id;
      try lia; try assumption.
    cbv zeta. rewrite Z.add_0_l, Z.sub_0_r.
    rewrite (ulong_small k), (ulong_small (k + 1)) by lia.
    rewrite (ulong_small (k + 1 + 1)) by lia.
    rewrite Z.add_0_r, (ulong_small (k + 1)) by lia.
    replace (Z.to_nat (k + 1 - (k + 1 + 1))) with O by lia.
    reflexivity.
  - intros Hrun. unfold get_frames.
    destruct (Z.ltb_spec 0 (n_free_frames p)); [| lia]. cbn [negb].
    rewrite (scan_zero_all_free (bitmap p)); rewrite ?Z2Nat.id;
      try lia; try assumption.
    reflexivity.
Qed.

Lemma get_frames_zero_witness :
  get_frames pool8 0 = Ret (take_frame pool8 1 HoS, 17).
Proof.
  destruct (get_frames_zero pool8) as [Hstop _].
  - in_range_eval.
  - by_eval.
  - rewrite (Hstop 0).
    + reflexivity.
    + split; by_eval.
    + by_eval.
    + intros j Hj. lia.
    + by_eval.
Defined.

(** X9: the value 0 that [get_frames] returns when it finds no run is also
    the frame number it returns when it succeeds at the first frame of a
    pool that starts at frame 0: there the run at bitmap index 0 is taken,
    its head written and the free count lowered, and 0 is returned. *)
Theorem get_frames_success_returns_zero (p : ContFramePool) (n : Z) :
  pool_in_range p ->
  base_frame_no p = 0 ->
  1 <= n <= n_frames p ->
  0 < n_free_frames p ->
  run_free (bitmap p) 0 n ->
  exists q,
    get_frames p n = Ret (q, 0) /\
    get_state (bitmap q) 0 = HoS /\
    (forall j, 0 < j < n -> get_state (bitmap q) j = Used) /\
    n_free_frames q = ulong (n_free_frames p - n).
Proof.
  intros Hr Hbase Hn Hpos Hrun.
  pose proof Hr as (Hb & HN & Hf).
  assert (Hn32 : 1 <= n < 2 ^ 32) by lia.
  assert (Hhas : has_free_run p n).
  { exists 0. split; [lia |]. split; [lia | exact Hrun]. }
  destruct (scan_finds_run p n Hr Hn32 Hhas)
    as (e & E & Hs & Hhi & Hfree & Hlow).
  assert (Hzero : e - n + 1 = 0).
  { destruct (Z.eq_dec (e - n + 1) 0) as [Hz | Hnz]; [exact Hz |].
    exfalso. apply (Hlow 0); [lia | exact Hrun]. }
  pose proof (marked_run_spec p 0 n) as Hmark. cbv zeta in Hmark.
  destruct Hmark as (Hhead & Hused & _ & Hcnt & _); try lia.
  exists (mark_used (Z.to_nat (n - 1)) (0 + 1) (take_frame p 0 HoS)).
  split.
  - rewrite (get_frames_found p n e) by assumption.
    rewrite Hzero, Hbase. reflexivity.
  - split; [exact Hhead |]. split; [| exact Hcnt].
    intros j Hj. apply Hused. lia.
Qed.

Lemma get_frames_success_returns_zero_witness :
  exists q, get_frames pool4 2 = Ret (q, 0) /\ get_state (bitmap q) 0 = HoS.
Proof.
  destruct (get_frames_success_returns_zero pool4 2)
    as (q & Hget & Hhead & _).
  - in_range_eval.
  - by_eval.
  - split; by_eval.
  - by_eval.
  - intros j Hj. assert (C : j = 0 \/ j = 1) by lia.
    destruct C as [-> | ->]; by_eval.
  - exists q. split; assumption.
Defined.

(** X10: two [get_frames] in a row that each had a run to find return runs
    that share no frame, and both runs lie in the pool's range of frame
    numbers. *)
Theorem get_frames_twice_disjoint
        (p q1 q2 : ContFramePool) (n1 n2 f1 f2 : Z) :
  pool_in_range p ->
  base_frame_no p + n_frames p <= 2 ^ 32 ->
  1 <= n1 -> 1 <= n2 ->
  has_free_run p n1 -> get_frames p n1 = Ret (q1, f1) ->
  has_free_run q1 n2 -> get_frames q1 n2 = Ret (q2, f2) ->
  (f1 + n1 <= f2 \/ f2 + n2 <= f1) /\
  base_frame_no p <= f1 /\ f1 + n1 <= base_frame_no p + n_frames p /\
  base_frame_no p <= f2 /\ f2 + n2 <= base_frame_no p + n_frames p.
Proof.
  intros Hr Htop Hn1 Hn2 Hrun1 Hget1 Hrun2 Hget2.
  pose proof Hr as (Hb & HN & Hf).
  destruct (get_frames_result p n1 q1 f1 Hr Hn1 Hrun1 Hget1)
    as (s1 & Hs1 & Hfit1 & Hf1 & _ & _ & Hhead1 & Hused1 & _ & Hcnt1
        & Hb1 & Hnf1 & _).
  assert (Hr1 : pool_in_range q1).
  { unfold pool_in_range. rewrite Hb1, Hnf1, Hcnt1.
    repeat split; try lia; apply ulong_range. }
  destruct (get_frames_result q1 n2 q2 f2 Hr1 Hn2 Hrun2 Hget2)
    as (s2 & Hs2 & Hfit2 & Hf2 & Hfree2 & _).
  rewrite Hb1 in Hf2. rewrite Hnf1 in Hfit2.
  rewrite ulong_small in Hf1, Hf2 by lia.
  assert (Hdis : s1 + n1 <= s2 \/ s2 + n2 <= s1).
  { destruct (Z_le_gt_dec (s1 + n1) s2) as [H | H]; [left; exact H |].
    destruct (Z_le_gt_dec (s2 + n2) s1) as [H' | H']; [right; exact H' |].
    exfalso.
    assert (Hj : get_state (bitmap q1) (Z.max s1 s2) = Free)
      by (apply Hfree2; lia).
    destruct (Z.eq_dec (Z.max s1 s2) s1) as [E | E].
    - rewrite E, Hhead1 in Hj. discriminate.
    - rewrite Hused1 in Hj by lia. discriminate. }
  lia.
Qed.

Lemma get_frames_twice_disjoint_witness :
  (17 + 3 <= 20 \/ 20 + 2 <= 17) /\
  16 <= 17 /\ 17 + 3 <= 16 + 8 /\ 16 <= 20 /\ 20 + 2 <= 16 + 8.
Proof.
  apply (get_frames_twice_disjoint pool8 pool8_taken pool8_taken_twice 3 2 17 20).
  - in_range_eval.
  - by_eval.
  - by_eval.
  - by_eval.
  - exists 1. split; [lia |]. split; [by_eval |].
    intros j Hj. assert (C : j = 1 \/ j = 2 \/ j = 3) by lia.
    destruct C as [-> | [-> | ->]]; by_eval.
  - reflexivity.
  - exists 4. split; [lia |]. split; [by_eval |].
    intros j Hj. assert (C : j = 4 \/ j = 5) by lia.
    destruct C as [-> | ->]; by_eval.
  - reflexivity.
Defined.

(** ** [release_frames] *)

Lemma release_restores_allocation_witness :
  exists r,
    release_frames 3 [pool8_taken] 17 = Some ([r], Released) /\
    n_free_frames r = 7 /\
    (forall j, get_state (bitmap r) j = get_state (bitmap pool8) j).
Proof.
  destruct (release_restores_allocation [pool8_taken] 0 pool8 pool8_taken 3 17)
    with (fuel := O) as (r & Hrel & Hcnt & Hst & _).
  - in_range_eval.
  - by_eval.
  - by_eval.
  - exists 1. split; [lia |]. split; [by_eval |].
    intros j Hj. assert (C : j = 1 \/ j = 2 \/ j = 3) by lia.
    destruct C as [-> | [-> | ->]]; by_eval.
  - reflexivity.
  - reflexivity.
  - by_eval.
  - exists r. split; [exact Hrel |]. split; [| exact Hst].
    rewrite Hcnt. by_eval.
Defined.

Lemma release_frames_keeps_free_count_witness :
  exists r,
    release_frames 3 [pool8_taken] 17 = Some ([r], Released) /\
    pool_in_range r /\ free_count_ok r.
Proof.
  destruct (release_frames_keeps_free_count [pool8_taken] 0 pool8_taken 1 3)
    with (fuel := O) as (r & Hrel & Hr & Hok).
  - in_range_eval.
  - by_eval.
  - lia.
  - lia.
  - by_eval.
  - by_eval.
  - reflexivity.
  - by_eval.
  - intros j Hj. assert (C : j = 2 \/ j = 3) by lia.
    destruct C as [-> | ->]; by_eval.
  - by_eval.
  - exists r. split; [exact Hrel |]. split; assumption.
Defined.

Lemma find_pool_update : forall reg k q r f,
  find_pool reg f = Some (k, q) ->
  in_pool_range r f = true ->
  find_pool (update_pool reg k r) f = Some (k, r).
Proof.
  induction reg as [| p0 rest IH]; intros k q r f Hfind Hin; [discriminate |].
  simpl in Hfind. destruct (in_pool_range p0 f) eqn:E.
  - inversion Hfind; subst. simpl. rewrite Hin. reflexivity.
  - destruct (find_pool rest f) as [[k0 q0] |] eqn:F; [| discriminate].
    inversion Hfind; subst. simpl. rewrite E.
    rewrite (IH k0 q r f F Hin). reflexivity.
Qed.

(** X13: a run that was released cannot be released again.  After the
    accepted [release_frames] of a run whose next entry is not [Used], a
    second [release_frames] of the same frame is refused, for it now reads
    [Free], and the registry stays as the first release left it. *)
Theorem release_frames_twice_refused
        (reg : registry) (k : nat) (q : ContFramePool) (s n : Z) :
  pool_in_range q ->
  0 <= s -> 1 <= n ->
  base_frame_no q + s + n < 2 ^ 32 ->
  find_pool reg (base_frame_no q + s) = Some (k, q) ->
  get_state (bitmap q) s = HoS ->
  (forall j, s < j < s + n -> get_state (bitmap q) j = Used) ->
  get_state (bitmap q) (s + n) <> Used ->
  forall fuel fuel',
  exists r,
    release_frames (Z.to_nat n + fuel) reg (base_frame_no q + s)
    = Some (update_pool reg k r, Released) /\
    release_frames fuel' (update_pool reg k r) (base_frame_no q + s)
    = Some (update_pool reg k r, NotHeadFrame).
Proof.
  intros Hr Hs Hn Hfit Hfind Hhead Hused Hstop fuel fuel'.
  destruct (release_frames_frees_run reg k q s n Hr Hs Hn Hfit Hfind Hhead
                                     Hused Hstop fuel)
    as (r & Hrel & Hst & _ & Hbase & Hnf & _).
  exists r. split; [exact Hrel |].
  destruct (find_pool_some reg _ k q Hfind) as (_ & Hin & _).
  assert (Hin' : in_pool_range r (base_frame_no q + s) = true).
  { unfold in_pool_range in *. rewrite Hbase, Hnf. exact Hin. }
  unfold release_frames.
  rewrite (find_pool_update reg k q r _ Hfind Hin').
  rewrite Hbase.
  replace (base_frame_no q + s - base_frame_no q) with s by lia.
  destruct Hr as (Hb & _).
  rewrite (ulong_small s) by lia.
  rewrite Hst.
  destruct (Z.leb_spec s s), (Z.ltb_spec s (s + n)); try lia.
  reflexivity.
Qed.

Lemma release_frames_twice_refused_witness :
  exists r,
    release_frames 3 [pool8_taken] 17 = Some ([r], Released) /\
    release_frames 0 [r] 17 = Some ([r], NotHeadFrame).
Proof.
  destruct (release_frames_twice_refused [pool8_taken] 0 pool8_taken 1 3)
    with (fuel := O) (fuel' := O) as (r & Hrel & Hagain).
  - in_range_eval.
  - lia.
  - lia.
  - by_eval.
  - reflexivity.
  - by_eval.
  - intros j Hj. assert (C : j = 2 \/ j = 3) by lia.
    destruct C as [-> | ->]; by_eval.
  - by_eval.
  - exists r. split; [exact Hrel | exact Hagain].
Defined.

Lemma release_sweep_same_range : forall fuel p f r,
  release_sweep fuel p f = Some r -> same_range p r.
Proof.
  induction fuel as [| fuel IH]; intros p f r H; [discriminate |].
  cbn [release_sweep] in H.
  destruct (FrameState_eqb
              (get_state (bitmap p) (ulong (f - base_frame_no p))) Used).
  - apply IH in H. unfold same_range in *. simpl in H. exact H.
  - inversion H; subst. unfold same_range. auto.
Qed.

Lemma update_pool_length : forall reg k r,
  length (update_pool reg k r) = length reg.
Proof.
  induction reg as [| p0 rest IH]; intros k r; [reflexivity |].
  destruct k; simpl; [reflexivity | rewrite IH; reflexivity].
Qed.

Lemma same_range_refl reg : Forall2 same_range reg reg.
Proof.
  induction reg; constructor; [unfold same_range; auto | assumption].
Qed.

Lemma update_pool_same_range : forall reg k p r,
  nth_error reg k = Some p -> same_range p r ->
  Forall2 same_range reg (update_pool reg k r).
Proof.
  induction reg as [| p0 rest IH]; intros k p r Hnth Hsame;
    [destruct k; discriminate |].
  destruct k; simpl in *.
  - inversion Hnth; subst. constructor; [exact Hsame | apply same_range_refl].
  - constructor; [unfold same_range; auto | apply (IH k p r Hnth Hsame)].
Qed.

Lemma find_pool_same_range reg reg' f :
  Forall2 same_range reg reg' ->
  option_map fst (find_pool reg' f) = option_map fst (find_pool reg f).
Proof.
  induction 1 as [| p p' rest rest' (Hb & Hn & _) _ IH]; [reflexivity |].
  simpl. unfold in_pool_range. rewrite Hb, Hn.
  destruct ((base_frame_no p <=? f)
            && (f <? ulong (base_frame_no p + n_frames p))); [reflexivity |].
  destruct (find_pool rest' f) as [[k' q'] |],
           (find_pool rest f) as [[k q] |]; simpl in *;
    try discriminate; try reflexivity.
  inversion IH; reflexivity.
Qed.

(** X14: [release_frames] never changes to which pool a frame number
    belongs.  Whatever it does, the list keeps its length, no pool's
    [base_frame_no], [n_frames] or [info_frame_no] changes, and every frame
    number resolves to the same position of the list afterwards as
    before. *)
Theorem release_frames_keeps_lookup
        (fuel : nat) (reg reg' : registry) (f : Z) (out : ReleaseOutcome) :
  release_frames fuel reg f = Some (reg', out) ->
  length reg' = length reg /\
  Forall2 same_range reg reg' /\
  (forall f', option_map fst (find_pool reg' f')
              = option_map fst (find_pool reg f')).
Proof.
  intros H.
  assert (Hcases : reg' = reg \/
                   exists k p r, find_pool reg f = Some (k, p) /\
                                 reg' = update_pool reg k r /\
                                 same_range p r).
  { unfold release_frames in H.
    destruct (find_pool reg f) as [[k p] |] eqn:F.
    - destruct (negb (FrameState_eqb
                        (get_state (bitmap p) (ulong (f - base_frame_no p)))
                        HoS)).
      + inversion H. left. reflexivity.
      + destruct (release_sweep fuel _ _) as [r |] eqn:E; [| discriminate].
        inversion H; subst. right. exists k, p, r.
        split; [reflexivity |]. split; [reflexivity |].
        apply release_sweep_same_range in E.
        unfold same_range in *. simpl in E. exact E.
    - inversion H. left. reflexivity. }
  destruct Hcases as [-> | (k & p & r & F & -> & Hsame)].
  - split; [reflexivity |]. split; [apply same_range_refl |]. reflexivity.
  - destruct (find_pool_some reg f k p F) as (Hnth & _).
    pose proof (update_pool_same_range reg k p r Hnth Hsame) as Hall.
    split; [apply update_pool_length |]. split; [exact Hall |].
    intros f'. apply find_pool_same_range. exact Hall.
Qed.

Lemma release_frames_keeps_lookup_witness :
  exists reg',
    release_frames 3 [pool8_taken; pool_overlap] 17 = Some (reg', Released) /\
    length reg' = 2%nat /\
    option_map fst (find_pool reg' 21) = Some 0%nat /\
    option_map fst (find_pool reg' 25) = Some 1%nat.
Proof.
  assert (H : exists reg', release_frames 3 [pool8_taken; pool_overlap] 17
                           = Some (reg', Released))
    by (eexists; reflexivity).
  destruct H as (reg' & Hrel). exists reg'. split; [exact Hrel |].
  destruct (release_frames_keeps_lookup _ _ _ _ _ Hrel)
    as (Hlen & _ & Hsame).
  split; [rewrite Hlen; reflexivity |].
  split; rewrite Hsame; by_eval.
Defined.

(** X15: after [get_frames], [release_frames] of the frame returned, with
    the entry behind the run not [Used], and [get_frames] of the same
    number of frames again, the second [get_frames] returns the frame the
    first returned. *)
Theorem get_frames_again_same_frame
        (reg : registry) (k : nat) (p q : ContFramePool) (n f : Z) :
  pool_in_range p ->
  base_frame_no p + n_frames p < 2 ^ 32 ->
  1 <= n ->
  has_free_run p n ->
  get_frames p n = Ret (q, f) ->
  find_pool reg f = Some (k, q) ->
  get_state (bitmap p) (f - base_frame_no p + n) <> Used ->
  forall fuel,
  exists r q',
    release_frames (Z.to_nat n + fuel) reg f
    = Some (update_pool reg k r, Released) /\
    get_frames r n = Ret (q', f).
Proof.
  intros Hr Htop Hn Hrun0 Hget Hfind Hstop fuel.
  pose proof Hr as (Hb & HN & Hf).
  assert (Hpos : 0 < n_free_frames p).
  { unfold get_frames in Hget.
    destruct (Z.ltb_spec 0 (n_free_frames p)); [assumption | discriminate]. }
  destruct (get_frames_result p n q f Hr Hn Hrun0 Hget)
    as (s & Hs & Hfit & Hfeq & Hfree & Hlow & Hhead & Hused & Hother & Hcnt
        & Hbase & Hnf & Hinfo).
  rewrite ulong_small in Hfeq by lia.
  replace (f - base_frame_no p + n) with (s + n) in Hstop by lia.
  assert (Hqr : pool_in_range q).
  { unfold pool_in_range. rewrite Hbase, Hnf, Hcnt.
    repeat split; try lia; apply ulong_range. }
  replace f with (base_frame_no q + s) in * by lia.
  destruct (release_frames_frees_run reg k q s n) with (fuel := fuel)
    as (r & Hrel & Hst & Hcnt' & Hbase' & Hnf' & Hinfo'); try assumption;
    try lia.
  { rewrite Hother by lia. exact Hstop. }
  assert (Hsame : forall j, get_state (bitmap r) j = get_state (bitmap p) j).
  { intros j. rewrite Hst.
    destruct (Z.leb_spec s j), (Z.ltb_spec j (s + n)); simpl;
      try (apply Hother; lia).
    symmetry. apply Hfree. lia. }
  assert (Hcntr : n_free_frames r = n_free_frames p).
  { rewrite Hcnt', Hcnt. unfold ulong. rewrite Zplus_mod_idemp_l.
    replace (n_free_frames p - n + n) with (n_free_frames p) by lia.
    apply Z.mod_small. lia. }
  assert (Hrr : pool_in_range r).
  { unfold pool_in_range. rewrite Hbase', Hnf', Hbase, Hnf, Hcntr. auto. }
  assert (Hn32 : 1 <= n < 2 ^ 32) by lia.
  assert (Hrunr : has_free_run r n).
  { exists s. split; [lia |]. split; [lia |].
    intros j Hj. rewrite Hsame. apply Hfree. exact Hj. }
  destruct (scan_finds_run r n Hrr Hn32 Hrunr)
    as (e & E & Hs' & Hhi' & Hfree' & Hlow').
  assert (Heq : e - n + 1 = s).
  { destruct (Z_lt_le_dec (e - n + 1) s) as [Hlt | Hge].
    - exfalso. apply (Hlow (e - n + 1)); [lia |].
      intros j Hj. rewrite <- Hsame. apply Hfree'. exact Hj.
    - destruct (Z_lt_le_dec s (e - n + 1)) as [Hlt | Hle]; [| lia].
      exfalso. apply (Hlow' s); [lia |].
      intros j Hj. rewrite Hsame. apply Hfree. exact Hj. }
  exists r. eexists. split; [exact Hrel |].
  rewrite (get_frames_found r n e); try assumption; try lia.
  rewrite Heq, Hbase', ulong_small by lia.
  rewrite (Z.add_comm s (base_frame_no q)). reflexivity.
Qed.

Lemma get_frames_again_same_frame_witness :
  exists r q',
    release_frames 3 [pool8_taken] 17 = Some ([r], Released) /\
    get_frames r 3 = Ret (q', 17).
Proof.
  destruct (get_frames_again_same_frame [pool8_taken] 0 pool8 pool8_taken 3 17)
    with (fuel := O) as (r & q' & Hrel & Hget).
  - in_range_eval.
  - by_eval.
  - by_eval.
  - exists 1. split; [lia |]. split; [by_eval |].
    intros j Hj. assert (C : j = 1 \/ j = 2 \/ j = 3) by lia.
    destruct C as [-> | [-> | ->]]; by_eval.
  - reflexivity.
  - reflexivity.
  - by_eval.
  - exists r, q'. split; assumption.
Defined.

(** ** [mark_inaccessible] *)

Lemma mark_inaccessible_marks_witness :
  get_state (bitmap (mark_inaccessible pool8_ext 2 3)) 2 = HoS /\
  get_state (bitmap (mark_inaccessible pool8_ext 2 3)) 3 = Used /\
  get_state (bitmap (mark_inaccessible pool8_ext 2 3)) 4 = Used /\
  n_free_frames (mark_inaccessible pool8_ext 2 3) = 5.
Proof.
  pose proof (mark_inaccessible_marks pool8_ext 2 3) as H. cbv zeta in H.
  destruct H as (Hhead & Hused & _ & Hcnt & _).
  - lia.
  - lia.
  - by_eval.
  - split; [exact Hhead |].
    split; [apply Hused; lia |]. split; [apply Hused; lia |].
    rewrite Hcnt. by_eval.
Defined.

Lemma mark_inaccessible_keeps_free_count_witness :
  pool_in_range (mark_inaccessible pool4 0 2) /\
  free_count_ok (mark_inaccessible pool4 0 2).
Proof.
  apply (mark_inaccessible_keeps_free_count pool4 0 2).
  - in_range_eval.
  - by_eval.
  - lia.
  - lia.
  - by_eval.
  - intros j Hj. assert (C : j = 0 \/ j = 1) by lia.
    destruct C as [-> | ->]; by_eval.
Defined.

(** X18: [mark_inaccessible] of no frame marks one all the same: with
    [_n_frames = 0] it does what it does with [_n_frames = 1], the entry is
    written [HoS] and the free count goes down by one. *)
Theorem mark_inaccessible_zero (p : ContFramePool) (b : Z) :
  0 <= b -> b + 1 < 2 ^ 32 ->
  mark_inaccessible p b 0 = mark_inaccessible p b 1 /\
  get_state (bitmap (mark_inaccessible p b 0)) b = HoS /\
  n_free_frames (mark_inaccessible p b 0) = ulong (n_free_frames p - 1).
Proof.
  intros Hb Hb1. unfold mark_inaccessible.
  rewrite Z.add_0_r, (ulong_small b), (ulong_small (b + 1)) by lia.
  replace (Z.to_nat (b - (b + 1))) with O by lia.
  replace (Z.to_nat (b + 1 - (b + 1))) with O by lia.
  cbn [mark_used]. split; [reflexivity |].
  split; [apply get_set_same | reflexivity].
Qed.

Lemma mark_inaccessible_zero_witness :
  mark_inaccessible pool8_ext 2 0 = mark_inaccessible pool8_ext 2 1 /\
  get_state (bitmap (mark_inaccessible pool8_ext 2 0)) 2 = HoS /\
  n_free_frames (mark_inaccessible pool8_ext 2 0) = 7.
Proof.
  destruct (mark_inaccessible_zero pool8_ext 2) as (H1 & H2 & H3).
  - lia.
  - by_eval.
  - split; [exact H1 |]. split; [exact H2 |]. rewrite H3. by_eval.
Defined.

Lemma mark_inaccessible_run p b n :
  0 <= b -> 1 <= n -> b + n < 2 ^ 32 ->
  mark_inaccessible p b n
  = mark_used (Z.to_nat (n - 1)) (b + 1) (take_frame p b HoS).
Proof.
  intros Hb Hn Hfit. unfold mark_inaccessible.
  rewrite (ulong_small (b + 1)), (ulong_small (b + n)) by lia.
  replace (b + n - (b + 1)) with (n - 1) by lia. reflexivity.
Qed.

(** X19: a range that [mark_inaccessible] has marked is given back by
    [release_frames].  With [b] the bitmap index marked and the entry
    behind the range not [Used], [release_frames] of frame
    [base_frame_no + b] is accepted, sets the [n] entries [Free], whatever
    they were before the marking, and puts the free count back to what it
    was before the marking. *)
Theorem mark_inaccessible_then_release
        (reg : registry) (k : nat) (p : ContFramePool) (b n : Z) :
  pool_in_range p ->
  0 <= b -> 1 <= n ->
  base_frame_no p + b + n < 2 ^ 32 ->
  find_pool reg (base_frame_no p + b) = Some (k, mark_inaccessible p b n) ->
  get_state (bitmap p) (b + n) <> Used ->
  forall fuel,
  exists r,
    release_frames (Z.to_nat n + fuel) reg (base_frame_no p + b)
    = Some (update_pool reg k r, Released) /\
    (forall j,
        get_state (bitmap r) j =
        if (b <=? j) && (j <? b + n) then Free else get_state (bitmap p) j) /\
    n_free_frames r = n_free_frames p.
Proof.
  intros Hr Hb Hn Hfit Hfind Hstop fuel.
  pose proof Hr as (Hbase & HN & Hf).
  pose proof (marked_run_spec p b n) as Hmark. cbv zeta in Hmark.
  rewrite <- mark_inaccessible_run in Hmark by lia.
  destruct Hmark as (Hhead & Hused & Hother & Hcnt & Hbq & Hnq & Hiq);
    try lia.
  set (q := mark_inaccessible p b n) in *.
  assert (Hqr : pool_in_range q).
  { unfold pool_in_range. rewrite Hbq, Hnq, Hcnt.
    repeat split; try lia; apply ulong_range. }
  rewrite <- Hbq in Hfind, Hfit |- *.
  destruct (release_frames_frees_run reg k q b n) with (fuel := fuel)
    as (r & Hrel & Hst & Hcnt' & _); try assumption.
  { rewrite Hother by lia. exact Hstop. }
  exists r. split; [exact Hrel |]. split.
  - intros j. rewrite Hst.
    destruct (Z.leb_spec b j), (Z.ltb_spec j (b + n)); simpl;
      try reflexivity; apply Hother; lia.
  - rewrite Hcnt', Hcnt. unfold ulong. rewrite Zplus_mod_idemp_l.
    replace (n_free_frames p - n + n) with (n_free_frames p) by lia.
    apply Z.mod_small. lia.
Qed.

Lemma mark_inaccessible_then_release_witness :
  exists r,
    release_frames 2 [mark_inaccessible pool4 0 2] 0
    = Some ([r], Released) /\
    n_free_frames r = 4.
Proof.
  destruct (mark_inaccessible_then_release
              [mark_inaccessible pool4 0 2] 0 pool4 0 2)
    with (fuel := O) as (r & Hrel & _ & Hcnt).
  - in_range_eval.
  - lia.
  - lia.
  - by_eval.
  - reflexivity.
  - by_eval.
  - exists r. split; [exact Hrel |]. rewrite Hcnt. by_eval.
Defined.

(** * Further properties of the virtual-memory pool *)

Section VMFurther.

Variable PAGE_SIZE : Z.
Variable MAX_VM_REGIONS : Z.
Hypothesis PAGE_SIZE_word : 0 < PAGE_SIZE < 2 ^ 32.
Hypothesis MAX_VM_REGIONS_word : MAX_VM_REGIONS < 2 ^ 32.

Local Abbreviation round_up := (round_up_pages PAGE_SIZE).

(** The table and the count that [release] leaves, with [indx] the slot at
    which its search stopped. *)
Lemma release_table p a :
  0 <= region_iterator p < 2 ^ 32 ->
  let indx :=
    find_region (Z.to_nat (region_iterator p)) (allocated_region p) a 0 in
  let p' := fst (release PAGE_SIZE p a) in
  0 <= indx <= region_iterator p /\
  (forall j, 0 <= j < indx ->
             region_base_address (allocated_region p j) <> a) /\
  (indx < region_iterator p ->
   region_base_address (allocated_region p indx) = a) /\
  region_iterator p' = ulong (region_iterator p - 1) /\
  (forall j,
      allocated_region p' j =
      if (indx <=? j) && (j <? region_iterator p)
      then allocated_region p (j + 1) else allocated_region p j) /\
  _base_address p' = _base_address p /\ _size p' = _size p.
Proof.
  intros Hit indx p'.
  destruct (find_region_spec (allocated_region p) a
                             (Z.to_nat (region_iterator p)) 0)
    as (H1 & H2 & H3); try lia.
  fold indx in H1, H2, H3. rewrite Z2Nat.id in H1, H3 by lia.
  split; [lia |]. split; [intros; apply H2; lia |].
  split; [intros; apply H3; lia |].
  unfold p', release.
  cbn [fst region_iterator allocated_region _base_address _size].
  fold indx.
  split; [reflexivity |]. split; [| split; reflexivity].
  intros j. rewrite shift_down_spec by (rewrite ?Z2Nat.id; lia).
  rewrite Z2Nat.id by lia.
  replace (indx + (region_iterator p - indx)) with (region_iterator p) by lia.
  reflexivity.
Qed.

(** X20: [release] of an address that no live descriptor holds is not
    refused.  The search runs to the end of the live slots; [free_page] is
    called for the pages of the entry in the slot behind them, whatever it
    holds; no descriptor moves; the region count goes down by one all the
    same, which drops the last live region; [load] is called. *)
Theorem release_unknown_address (p : VMPool) (a : Z) :
  1 <= region_iterator p < 2 ^ 32 ->
  0 <= region_size (allocated_region p (region_iterator p)) < 2 ^ 32 ->
  (forall j, 0 <= j < region_iterator p ->
             region_base_address (allocated_region p j) <> a) ->
  release PAGE_SIZE p a =
  (mkVMPool (_base_address p) (_size p) (region_iterator p - 1)
            (allocated_region p),
   map free_page
       (pages_of PAGE_SIZE (allocated_region p (region_iterator p)))
   ++ [load]).
Proof.
  intros Hit Hsize Hnone.
  destruct (find_region_spec (allocated_region p) a
                             (Z.to_nat (region_iterator p)) 0)
    as (H1 & _ & H3); try lia.
  rewrite Z2Nat.id in H1, H3 by lia.
  assert (Hindx : find_region (Z.to_nat (region_iterator p))
                              (allocated_region p) a 0 = region_iterator p).
  { destruct (Z_lt_le_dec
                (find_region (Z.to_nat (region_iterator p))
                             (allocated_region p) a 0)
                (region_iterator p)) as [Hlt | Hge]; [| lia].
    exfalso. apply (Hnone _ (conj (proj1 H1) Hlt)). apply H3. lia. }
  unfold release. rewrite Hindx.
  set (d := allocated_region p (region_iterator p)) in *.
  assert (Hq : 0 <= region_size d / PAGE_SIZE <= region_size d).
  { split; [apply Z.div_pos; lia |].
    apply Z.div_le_upper_bound; [lia | nia]. }
  assert (Hmul : region_size d / PAGE_SIZE * PAGE_SIZE <= region_size d).
  { rewrite Z.mul_comm. apply Z.mul_div_le. lia. }
  rewrite (ulong_small (region_size d / PAGE_SIZE)) by lia.
  rewrite (free_pages_spec PAGE_SIZE PAGE_SIZE_word)
    by (rewrite ?Z2Nat.id; lia).
  replace (Z.to_nat (region_iterator p - region_iterator p)) with O by lia.
  cbn [shift_down].
  rewrite (ulong_small (region_iterator p - 1)) by lia.
  f_equal. f_equal.
  unfold pages_of, indices. rewrite !map_map. apply map_ext.
  intros x. reflexivity.
Qed.

(** X21: [release] keeps the live regions in ascending order and disjoint,
    whether it finds the address or not, as long as a region is live. *)
Theorem release_keeps_order (p : VMPool) (a : Z) :
  1 <= region_iterator p < 2 ^ 32 ->
  regions_ordered p ->
  regions_ordered (fst (release PAGE_SIZE p a)).
Proof.
  intros Hit (Hsize & Hord).
  pose proof (release_table p a) as H. cbv zeta in H.
  destruct H as (Hindx & _ & _ & Hcount & Htbl & _); [lia |].
  rewrite (ulong_small (region_iterator p - 1)) in Hcount by lia.
  set (indx := find_region (Z.to_nat (region_iterator p))
                           (allocated_region p) a 0) in *.
  split.
  - intros j Hj. rewrite Hcount in Hj. rewrite Htbl.
    destruct ((indx <=? j) && (j <? region_iterator p)); apply Hsize; lia.
  - intros i j Hij Hj. rewrite Hcount in Hj. rewrite !Htbl.
    destruct (Z.leb_spec indx i), (Z.ltb_spec i (region_iterator p)),
             (Z.leb_spec indx j), (Z.ltb_spec j (region_iterator p));
      simpl; try lia; apply Hord; lia.
Qed.

(** X22: [allocate] keeps the live regions in ascending order and disjoint:
    the new region starts where the last one ends. *)
Theorem allocate_keeps_order (p p' : VMPool) (s a : Z) :
  0 <= region_iterator p < MAX_VM_REGIONS ->
  0 < s < 2 ^ 32 ->
  0 <= next_region_base p ->
  next_region_base p + round_up s < 2 ^ 32 ->
  regions_ordered p ->
  allocate PAGE_SIZE MAX_VM_REGIONS p s = Ret (p', a) ->
  regions_ordered p' /\
  forall j, 0 <= j < region_iterator p ->
            region_before (allocated_region p j) (mkRegion a (round_up s)).
Proof.
  intros Hit Hs Hnext Hfit (Hsize & Hord) Halloc.
  rewrite (allocate_once PAGE_SIZE MAX_VM_REGIONS PAGE_SIZE_word
                         MAX_VM_REGIONS_word p s Hit Hs Hnext Hfit) in Halloc.
  inversion Halloc; subst p' a. clear Halloc.
  destruct (round_up_pages_spec PAGE_SIZE PAGE_SIZE_word s) as [_ Hround].
  assert (Hbefore : forall j, 0 <= j < region_iterator p ->
             region_before (allocated_region p j)
                           (mkRegion (next_region_base p) (round_up s))).
  { intros j Hj. unfold region_before, next_region_base. simpl.
    destruct (Z.eqb_spec (region_iterator p) 0) as [E | E]; [lia |].
    destruct (Z.eq_dec j (region_iterator p - 1)) as [-> | Hne]; [lia |].
    pose proof (Hord j (region_iterator p - 1)) as Ho.
    unfold region_before in Ho.
    pose proof (Hsize (region_iterator p - 1)) as Hsz. lia. }
  split; [| exact Hbefore].
  split.
  - intros j Hj. simpl in *. unfold put_region.
    destruct (Z.eqb_spec j (region_iterator p)); [simpl; lia |].
    apply Hsize. lia.
  - intros i j Hij Hj. simpl in *. unfold put_region.
    destruct (Z.eqb_spec i (region_iterator p)); [lia |].
    destruct (Z.eqb_spec j (region_iterator p)) as [-> | Hne].
    + apply Hbefore. lia.
    + apply Hord; lia.
Qed.

(** X23: [release] of the address of a region that is not in the last live
    slot does not change where the next region goes: the next [allocate]
    returns the end of the last region, as it would have without the
    [release], and the released range stays unused. *)
Theorem release_inner_not_reused (p : VMPool) (a s : Z) :
  0 <= region_iterator p <= MAX_VM_REGIONS ->
  (exists k, 0 <= k < region_iterator p - 1 /\
             region_base_address (allocated_region p k) = a) ->
  0 < s < 2 ^ 32 ->
  0 <= next_region_base p ->
  next_region_base p + round_up s < 2 ^ 32 ->
  exists p'',
    allocate PAGE_SIZE MAX_VM_REGIONS (fst (release PAGE_SIZE p a)) s
    = Ret (p'', next_region_base p).
Proof.
  intros Hit (k & Hk & Hmatch) Hs Hnext Hfit.
  pose proof (release_table p a) as H. cbv zeta in H.
  destruct H as (Hindx & Hfirst & _ & Hcount & Htbl & _); [lia |].
  rewrite (ulong_small (region_iterator p - 1)) in Hcount by lia.
  set (indx := find_region (Z.to_nat (region_iterator p))
                           (allocated_region p) a 0) in *.
  assert (Hle : indx <= k).
  { destruct (Z_le_gt_dec indx k) as [Hle | Hgt]; [exact Hle |].
    exfalso. apply (Hfirst k); [lia | exact Hmatch]. }
  set (p' := fst (release PAGE_SIZE p a)) in *.
  assert (Hnext' : next_region_base p' = next_region_base p).
  { unfold next_region_base. rewrite Hcount.
    destruct (Z.eqb_spec (region_iterator p - 1) 0); [lia |].
    destruct (Z.eqb_spec (region_iterator p) 0); [lia |].
    cbv zeta. rewrite Htbl.
    destruct (Z.leb_spec indx (region_iterator p - 1 - 1)),
             (Z.ltb_spec (region_iterator p - 1 - 1) (region_iterator p));
      try lia.
    simpl. replace (region_iterator p - 1 - 1 + 1)
             with (region_iterator p - 1) by lia.
    reflexivity. }
  pose proof (allocate_once PAGE_SIZE MAX_VM_REGIONS PAGE_SIZE_word
                            MAX_VM_REGIONS_word p' s) as Hal.
  rewrite Hnext' in Hal. eexists. apply Hal; lia.
Qed.

(** X24: [release] of the region in the last live slot hands its address
    out again: when that region starts where [allocate] had put it, behind
    the region before it or at the pool's base address, the next
    [allocate] returns the released address. *)
Theorem release_last_reused (p : VMPool) (a s : Z) :
  1 <= region_iterator p <= MAX_VM_REGIONS ->
  region_base_address (allocated_region p (region_iterator p - 1)) = a ->
  (forall j, 0 <= j < region_iterator p - 1 ->
             region_base_address (allocated_region p j) <> a) ->
  a = (if region_iterator p =? 1 then _base_address p
       else region_base_address (allocated_region p (region_iterator p - 2))
            + region_size (allocated_region p (region_iterator p - 2))) ->
  0 < s < 2 ^ 32 ->
  0 <= a ->
  a + round_up s < 2 ^ 32 ->
  exists p'',
    allocate PAGE_SIZE MAX_VM_REGIONS (fst (release PAGE_SIZE p a)) s
    = Ret (p'', a).
Proof.
  intros Hit Hlast Hfirst Hpacked Hs Ha Hfit.
  pose proof (release_table p a) as H. cbv zeta in H.
  destruct H as (Hindx & Hbefore & Hfound & Hcount & Htbl & Hbase & _);
    [lia |].
  rewrite (ulong_small (region_iterator p - 1)) in Hcount by lia.
  set (indx := find_region (Z.to_nat (region_iterator p))
                           (allocated_region p) a 0) in *.
  assert (Heq : indx = region_iterator p - 1).
  { destruct (Z_lt_le_dec indx (region_iterator p - 1)) as [Hlt | Hge].
    - exfalso. apply (Hfirst indx); [lia |]. apply Hfound. lia.
    - destruct (Z.eq_dec indx (region_iterator p)) as [E | E]; [| lia].
      exfalso. apply (Hbefore (region_iterator p - 1)); [lia | exact Hlast]. }
  set (p' := fst (release PAGE_SIZE p a)) in *.
  assert (Hnext' : next_region_base p' = a).
  { unfold next_region_base. rewrite Hcount, Hbase. rewrite Hpacked.
    destruct (Z.eqb_spec (region_iterator p - 1) 0) as [E | E];
      destruct (Z.eqb_spec (region_iterator p) 1) as [E' | E'];
      try lia; try reflexivity.
    cbv zeta. rewrite Htbl.
    destruct (Z.leb_spec indx (region_iterator p - 1 - 1)); [lia |].
    simpl. replace (region_iterator p - 1 - 1)
             with (region_iterator p - 2) by lia.
    reflexivity. }
  pose proof (allocate_once PAGE_SIZE MAX_VM_REGIONS PAGE_SIZE_word
                            MAX_VM_REGIONS_word p' s) as Hal.
  rewrite Hnext' in Hal. eexists. apply Hal; lia.
Qed.

End VMFurther.

Section VMCompose.

Variable PAGE_SIZE : Z.
Variable MAX_VM_REGIONS : Z.
Hypothesis PAGE_SIZE_word : 0 < PAGE_SIZE < 2 ^ 32.
Hypothesis MAX_VM_REGIONS_word : MAX_VM_REGIONS < 2 ^ 32.

Local Abbreviation round_up := (round_up_pages PAGE_SIZE).

(** X25: [allocate] does not compare a request with the size of the pool.
    A region that ends behind [base_address + size] is recorded and its
    address returned like any other, and [is_legitimate] is false on the
    last byte of the region just allocated. *)
Theorem allocate_beyond_pool (p : VMPool) (s : Z) :
  0 <= region_iterator p < MAX_VM_REGIONS ->
  0 < s < 2 ^ 32 ->
  0 <= _base_address p -> 0 <= _size p ->
  0 <= next_region_base p ->
  next_region_base p + round_up s < 2 ^ 32 ->
  _base_address p + _size p < next_region_base p + round_up s - 1 ->
  exists p',
    allocate PAGE_SIZE MAX_VM_REGIONS p s = Ret (p', next_region_base p) /\
    allocated_region p' (region_iterator p)
    = mkRegion (next_region_base p) (round_up s) /\
    is_legitimate p' (next_region_base p + round_up s - 1) = false.
Proof.
  intros Hit Hs Hb Hsz Hnext Hfit Hbeyond.
  eexists. split.
  - apply (allocate_once PAGE_SIZE MAX_VM_REGIONS PAGE_SIZE_word
                         MAX_VM_REGIONS_word); assumption.
  - split.
    + simpl. unfold put_region. rewrite Z.eqb_refl. reflexivity.
    + unfold is_legitimate. simpl.
      rewrite (ulong_small (_base_address p + _size p)) by lia.
      apply andb_false_iff. right. apply Z.leb_gt. lia.
Qed.

(** X26: when successive calls of [allocate] have filled the table to
    [MAX_VM_REGIONS] entries, every further [allocate] is fatal, whatever
    the size asked for. *)
Theorem allocate_full_table_fatal (p : VMPool) (sizes : list Z) :
  0 <= region_iterator p ->
  region_iterator p + Z.of_nat (length sizes) = MAX_VM_REGIONS ->
  Forall (fun s => 0 < s < 2 ^ 32) sizes ->
  0 <= next_region_base p ->
  next_region_base p + total_rounded PAGE_SIZE sizes < 2 ^ 32 ->
  exists p' addrs,
    allocate_all PAGE_SIZE MAX_VM_REGIONS p sizes = Ret (p', addrs) /\
    length addrs = length sizes /\
    region_iterator p' = MAX_VM_REGIONS /\
    forall s, allocate PAGE_SIZE MAX_VM_REGIONS p' s = Fatal.
Proof.
  intros Hit Hfull Hsizes Hnext Hfit.
  destruct (allocate_all_spec PAGE_SIZE MAX_VM_REGIONS PAGE_SIZE_word
                              MAX_VM_REGIONS_word sizes p)
    as (p' & Hall & Hit' & _ & Hrec & _); try assumption; try lia.
  exists p'. eexists. split; [exact Hall |].
  split.
  - rewrite <- Hrec. unfold recorded.
    rewrite !length_map, length_seq. reflexivity.
  - split; [lia |].
    intros s. unfold allocate.
    destruct (s =? 0); [reflexivity |].
    destruct (Z.eqb_spec (region_iterator p') MAX_VM_REGIONS);
      [reflexivity | lia].
Qed.

(** X27: [allocate] and [release] of the address it returned, when no
    earlier live descriptor has that address, leave the pool with the
    region count and the live descriptors it had before; [release] calls
    [free_page] for each page of the rounded size, from the returned
    address on, and then [load]. *)
Theorem allocate_then_release (p : VMPool) (s : Z) :
  0 <= region_iterator p < MAX_VM_REGIONS ->
  0 < s < 2 ^ 32 ->
  0 <= next_region_base p ->
  next_region_base p + round_up s < 2 ^ 32 ->
  (forall j, 0 <= j < region_iterator p ->
             region_base_address (allocated_region p j) <> next_region_base p) ->
  exists p1,
    allocate PAGE_SIZE MAX_VM_REGIONS p s = Ret (p1, next_region_base p) /\
    let p2 := fst (release PAGE_SIZE p1 (next_region_base p)) in
    region_iterator p2 = region_iterator p /\
    (forall j, 0 <= j < region_iterator p ->
               allocated_region p2 j = allocated_region p j) /\
    _base_address p2 = _base_address p /\ _size p2 = _size p /\
    snd (release PAGE_SIZE p1 (next_region_base p))
    = map free_page
          (pages_of PAGE_SIZE (mkRegion (next_region_base p) (round_up s)))
      ++ [load].
Proof.
  intros Hit Hs Hnext Hfit Hfresh.
  set (a := next_region_base p) in *.
  set (d := mkRegion a (round_up s)).
  set (p1 := mkVMPool (_base_address p) (_size p) (region_iterator p + 1)
               (put_region (allocated_region p) (region_iterator p) d)).
  exists p1. split.
  { apply (allocate_once PAGE_SIZE MAX_VM_REGIONS PAGE_SIZE_word
                         MAX_VM_REGIONS_word); assumption. }
  destruct (round_up_pages_spec PAGE_SIZE PAGE_SIZE_word s) as [_ Hround].
  pose proof (release_table PAGE_SIZE p1 a) as H. cbv zeta in H.
  destruct H as (Hindx & Hbefore & Hfound & Hcount & Htbl & Hb & Hsz).
  { simpl. lia. }
  assert (Hit1 : region_iterator p1 = region_iterator p + 1) by reflexivity.
  assert (Htbl1 : allocated_region p1
                  = put_region (allocated_region p) (region_iterator p) d)
    by reflexivity.
  change (region_iterator p1) with (region_iterator p + 1)
    in Hindx, Hbefore, Hfound, Hcount, Htbl.
  change (allocated_region p1)
    with (put_region (allocated_region p) (region_iterator p) d)
    in Hindx, Hbefore, Hfound, Htbl.
  set (indx := find_region (Z.to_nat (region_iterator p + 1))
                 (put_region (allocated_region p) (region_iterator p) d) a 0)
    in *.
  assert (Hslot : put_region (allocated_region p) (region_iterator p) d
                             (region_iterator p) = d)
    by (unfold put_region; rewrite Z.eqb_refl; reflexivity).
  assert (Heq : indx = region_iterator p).
  { destruct (Z_lt_le_dec indx (region_iterator p)) as [Hlt | Hge].
    - exfalso. apply (Hfresh indx); [lia |].
      assert (Hm := Hfound ltac:(lia)).
      unfold put_region in Hm.
      destruct (Z.eqb_spec indx (region_iterator p)); [lia | exact Hm].
    - destruct (Z.eq_dec indx (region_iterator p)) as [E | E]; [exact E |].
      exfalso. apply (Hbefore (region_iterator p)); [lia |].
      rewrite Hslot. reflexivity. }
  cbv zeta.
  split.
  { rewrite Hcount. replace (region_iterator p + 1 - 1)
                      with (region_iterator p) by lia.
    apply ulong_small. lia. }
  split.
  { intros j Hj. rewrite Htbl, Heq.
    destruct (Z.leb_spec (region_iterator p) j); [lia |]. simpl.
    unfold put_region.
    destruct (Z.eqb_spec j (region_iterator p)); [lia | reflexivity]. }
  split; [exact Hb |]. split; [exact Hsz |].
  unfold release. cbn [snd]. rewrite Hit1, Htbl1.
  fold indx. rewrite Heq, Hslot.
  assert (Hq : 0 <= region_size d / PAGE_SIZE <= region_size d).
  { simpl. split; [apply Z.div_pos; lia |].
    apply Z.div_le_upper_bound; [lia | nia]. }
  assert (Hmul : region_size d / PAGE_SIZE * PAGE_SIZE <= region_size d).
  { rewrite Z.mul_comm. apply Z.mul_div_le. lia. }
  assert (Hd32 : region_size d < 2 ^ 32) by (simpl; lia).
  rewrite (ulong_small (region_size d / PAGE_SIZE)) by lia.
  rewrite (free_pages_spec PAGE_SIZE PAGE_SIZE_word)
    by (rewrite ?Z2Nat.id; lia).
  f_equal. unfold pages_of, indices. rewrite !map_map. apply map_ext.
  intros x. reflexivity.
Qed.

(** X28: [is_legitimate] looks at the pool's base address and size only.
    No [allocate] and no [release] changes its answer for any address: an
    address in the pool's range is legitimate before any region is
    allocated and after its region is released. *)
Theorem is_legitimate_ignores_regions (p : VMPool) (x : Z) :
  (forall a, is_legitimate (fst (release PAGE_SIZE p a)) x = is_legitimate p x) /\
  (forall s p' a,
      allocate PAGE_SIZE MAX_VM_REGIONS p s = Ret (p', a) ->
      is_legitimate p' x = is_legitimate p x).
Proof.
  split.
  - intros a. reflexivity.
  - intros s p' a H. unfold allocate in H.
    destruct (s =? 0); [discriminate |].
    destruct (region_iterator p =? MAX_VM_REGIONS); [discriminate |].
    cbv zeta in H. inversion H. reflexivity.
Qed.

End VMCompose.

(** ** The properties on concrete pools *)

Lemma page_size_4096 : 0 < 4096 < 2 ^ 32.
Proof. split; by_eval. Qed.

Lemma max_regions_16 : 16 < 2 ^ 32.
Proof. by_eval. Qed.

Lemma max_regions_3 : 3 < 2 ^ 32.
Proof. by_eval. Qed.

Lemma vm_two_ordered : regions_ordered vm_two.
Proof.
  split.
  - intros j Hj. change (region_iterator vm_two) with 2 in Hj.
    assert (C : j = 0 \/ j = 1) by lia.
    destruct C as [-> | ->]; by_eval.
  - intros i j Hij Hj. change (region_iterator vm_two) with 2 in Hj.
    assert (C : i = 0 /\ j = 1) by lia.
    destruct C as [-> ->]. unfold region_before. by_eval.
Qed.

Lemma vm_three_ordered : regions_ordered vm_three.
Proof.
  split.
  - intros j Hj. change (region_iterator vm_three) with 3 in Hj.
    assert (C : j = 0 \/ j = 1 \/ j = 2) by lia.
    destruct C as [-> | [-> | ->]]; by_eval.
  - intros i j Hij Hj. change (region_iterator vm_three) with 3 in Hj.
    assert (C : (i = 0 /\ j = 1) \/ (i = 0 /\ j = 2) \/ (i = 1 /\ j = 2))
      by lia.
    destruct C as [[-> ->] | [[-> ->] | [-> ->]]];
      unfold region_before; by_eval.
Qed.

Lemma release_unknown_address_witness :
  region_iterator (fst (release 4096 vm_two 5)) = 1 /\
  snd (release 4096 vm_two 5) = [load].
Proof.
  rewrite (release_unknown_address 4096 page_size_4096 vm_two 5).
  - split; reflexivity.
  - split; by_eval.
  - split; by_eval.
  - intros j Hj. change (region_iterator vm_two) with 2 in Hj.
    assert (C : j = 0 \/ j = 1) by lia.
    destruct C as [-> | ->]; by_eval.
Defined.

Lemma release_keeps_order_witness :
  regions_ordered (fst (release 4096 vm_three (1073741824 + 4096))).
Proof.
  apply (release_keeps_order 4096 vm_three (1073741824 + 4096)).
  - split; by_eval.
  - exact vm_three_ordered.
Defined.

Lemma allocate_keeps_order_witness :
  exists p',
    allocate 4096 16 vm_two 100 = Ret (p', 1073741824 + 8192) /\
    regions_ordered p'.
Proof.
  eexists. split; [reflexivity |].
  eapply (allocate_keeps_order 4096 16 page_size_4096 max_regions_16
                               vm_two _ 100 _).
  - split; by_eval.
  - split; by_eval.
  - by_eval.
  - by_eval.
  - exact vm_two_ordered.
  - reflexivity.
Defined.

Lemma release_inner_not_reused_witness :
  exists p'',
    allocate 4096 16 (fst (release 4096 vm_three 1073741824)) 4096
    = Ret (p'', 1073741824 + 12288).
Proof.
  destruct (release_inner_not_reused 4096 16 page_size_4096 max_regions_16
                                     vm_three 1073741824 4096)
    as (p'' & H).
  - split; by_eval.
  - exists 0. split; [split; by_eval | by_eval].
  - split; by_eval.
  - by_eval.
  - by_eval.
  - exists p''. exact H.
Defined.

Lemma release_last_reused_witness :
  exists p'',
    allocate 4096 16 (fst (release 4096 vm_two (1073741824 + 4096))) 4096
    = Ret (p'', 1073741824 + 4096).
Proof.
  destruct (release_last_reused 4096 16 page_size_4096 max_regions_16
                                vm_two (1073741824 + 4096) 4096)
    as (p'' & H).
  - split; by_eval.
  - by_eval.
  - intros j Hj. change (region_iterator vm_two) with 2 in Hj.
    assert (j = 0) as -> by lia. by_eval.
  - by_eval.
  - split; by_eval.
  - by_eval.
  - by_eval.
  - exists p''. exact H.
Defined.

Lemma allocate_beyond_pool_witness :
  exists p',
    allocate 4096 16 vm_fresh 20000 = Ret (p', 1073741824) /\
    is_legitimate p' (1073741824 + 20480 - 1) = false.
Proof.
  destruct (allocate_beyond_pool 4096 16 page_size_4096 max_regions_16
                                 vm_fresh 20000)
    as (p' & Hal & _ & Hleg).
  - split; by_eval.
  - split; by_eval.
  - by_eval.
  - by_eval.
  - by_eval.
  - by_eval.
  - by_eval.
  - exists p'. split; [exact Hal | exact Hleg].
Defined.

Lemma allocate_full_table_fatal_witness :
  exists p' addrs,
    allocate_all 4096 3 vm_fresh [4096; 4096; 4096] = Ret (p', addrs) /\
    allocate 4096 3 p' 4096 = Fatal.
Proof.
  destruct (allocate_full_table_fatal 4096 3 page_size_4096 max_regions_3
                                      vm_fresh [4096; 4096; 4096])
    as (p' & addrs & Hall & _ & _ & Hfatal).
  - by_eval.
  - reflexivity.
  - repeat constructor; by_eval.
  - by_eval.
  - by_eval.
  - exists p', addrs. split; [exact Hall | apply Hfatal].
Defined.

Lemma allocate_then_release_witness :
  exists p1,
    allocate 4096 16 vm_two 4096 = Ret (p1, 1073741824 + 8192) /\
    region_iterator (fst (release 4096 p1 (1073741824 + 8192))) = 2 /\
    snd (release 4096 p1 (1073741824 + 8192))
    = [free_page (1073741824 + 8192); load].
Proof.
  destruct (allocate_then_release 4096 16 page_size_4096 max_regions_16
                                  vm_two 4096)
    as (p1 & Hal & H).
  - split; by_eval.
  - split; by_eval.
  - by_eval.
  - by_eval.
  - intros j Hj. change (region_iterator vm_two) with 2 in Hj.
    assert (C : j = 0 \/ j = 1) by lia.
    destruct C as [-> | ->]; by_eval.
  - cbv zeta in H. destruct H as (Hit & _ & _ & _ & Hcalls).
    exists p1. split; [exact Hal |]. split; [exact Hit |].
    exact Hcalls.
Defined.

Lemma is_legitimate_ignores_regions_witness :
  is_legitimate vm_fresh (1073741824 + 100) = true /\
  is_legitimate (fst (release 4096 vm_two 1073741824)) (1073741824 + 100)
  = true.
Proof.
  destruct (is_legitimate_ignores_regions 4096 16 vm_two (1073741824 + 100))
    as [Hrel _].
  rewrite Hrel. split; reflexivity.
Defined.
